(** * The context registry of the MCP server (src/context-manager.ts)

    A shallow embedding of [ContextManager]: the record type
    [ContextDefinition], the enumeration [ContextType], the insertion-ordered
    [Map] that backs the registry, the loader run by the constructor, the four
    read operations, [registerContext] and [checkPermission].

    Conventions.
    - JavaScript strings are [string]; a template literal is a concatenation.
    - A [ContextDefinition] is a record of the interface: it has all its
      mandatory fields, and its [type] is a member of [ContextType]. The
      loader stores what the parsers return without a check; the module
      [Raw] embeds the loader and the two filtering queries over such
      values, whatever their fields.
    - [Map<string, V>] is an association list in insertion order: [Map_set]
      on a key already present overwrites the value where it stands, on a new
      key it appends.
    - An operation that can raise is a computation in the monad [M]: it
      takes the state (the manager object and what the logger has written)
      and ends in [Normal v] (it returned [v]) or [Throw e] (it raised [e]);
      an [async] method that ends in [Throw e] is a rejected promise.
    - What the code imports from outside the repository ([toLowerCase] of the
      language, [JSON.parse], [yaml.parse], [path.join], the constructor of
      [PublicKey]) is a field of the class [Runtime]; the file system is the
      record [FileSystem] of the three functions of [fs] that the code calls. *)

From Stdlib Require Import List String Ascii Bool Arith Lia Permutation.
From Stdlib Require Import DecimalString.
Import ListNotations.
Local Open Scope string_scope.
Local Open Scope list_scope.

Set Implicit Arguments.

(* ===================================================================== *)
(** ** Strings of the language                                            *)
(* ===================================================================== *)

(** [s.endsWith(suffix)]. *)
Definition endsWith (s suffix : string) : bool :=
  Nat.leb (String.length suffix) (String.length s) &&
  String.eqb
    (substring (String.length s - String.length suffix) (String.length suffix) s)
    suffix.

(** [`${n}`] for a non-negative integer [n]. *)
Definition Number_toString (n : nat) : string :=
  NilEmpty.string_of_uint (Nat.to_uint n).

(** ASCII text, and lower-casing of ASCII text: on such text
    [String.prototype.toLowerCase] maps [A]..[Z] to [a]..[z] and keeps every
    other character. *)
Definition is_ascii_char (c : ascii) : bool := Nat.ltb (nat_of_ascii c) 128.

Fixpoint is_ascii (s : string) : bool :=
  match s with
  | EmptyString => true
  | String c rest => is_ascii_char c && is_ascii rest
  end.

Definition ascii_lower_char (c : ascii) : ascii :=
  let n := nat_of_ascii c in
  if Nat.leb 65 n && Nat.leb n 90 then ascii_of_nat (n + 32) else c.

Fixpoint ascii_toLowerCase (s : string) : string :=
  match s with
  | EmptyString => EmptyString
  | String c rest => String (ascii_lower_char c) (ascii_toLowerCase rest)
  end.

(* ===================================================================== *)
(** ** Completions and errors                                             *)
(* ===================================================================== *)

Record JsError := { errName : string; errMessage : string }.

Inductive Completion (A : Type) : Type :=
| Normal (a : A)
| Throw (e : JsError).

Arguments Normal {A} a.
Arguments Throw {A} e.

(** The [TypeError] of a property read on [null]. *)
Definition TypeError_null (prop : string) : JsError :=
  {| errName := "TypeError";
     errMessage := "Cannot read properties of null (reading '" ++ prop ++ "')" |}.

(* ===================================================================== *)
(** ** Data model                                                         *)
(* ===================================================================== *)

Inductive ContextType : Type :=
| DEX | NFT_MARKETPLACE | ORACLE | GOVERNANCE | SOCIAL | IDENTITY | STORAGE.

(** The string value of each member of the enum. *)
Definition ContextType_value (t : ContextType) : string :=
  match t with
  | DEX => "dex"
  | NFT_MARKETPLACE => "nft_marketplace"
  | ORACLE => "oracle"
  | GOVERNANCE => "governance"
  | SOCIAL => "social"
  | IDENTITY => "identity"
  | STORAGE => "storage"
  end.

Definition ContextType_all : list ContextType :=
  [DEX; NFT_MARKETPLACE; ORACLE; GOVERNANCE; SOCIAL; IDENTITY; STORAGE].

(** [a === b] on two members of the enum compares their string values. *)
Definition ContextType_strict_eq (a b : ContextType) : bool :=
  String.eqb (ContextType_value a) (ContextType_value b).

Definition ContextType_eq_dec (a b : ContextType) : {a = b} + {a <> b}.
Proof. decide equality. Defined.

(** [Record<string, any>]: never read by the registry. *)
Definition Schema : Type := list (string * string).

Record ContextDefinition := {
  id : string;
  name : string;
  description : string;
  type : ContextType;
  capabilities : list string;
  endpoint : option string;
  pubkey : option string;
  authRequired : bool;
  schema : option Schema
}.

(** What a parser hands back: [null] (an empty document), or an object, taken
    at the type [ContextDefinition] the loader assigns to it. *)
Inductive Parsed : Type :=
| PNull
| PObject (d : ContextDefinition).

(* ===================================================================== *)
(** ** The insertion-ordered Map                                          *)
(* ===================================================================== *)

Definition JsMap (V : Type) : Type := list (string * V).

Definition Map_empty {V : Type} : JsMap V := [].

(** [m.get(k)]; [None] is [undefined]. *)
Fixpoint Map_get {V : Type} (m : JsMap V) (k : string) : option V :=
  match m with
  | [] => None
  | (k', v) :: rest => if String.eqb k' k then Some v else Map_get rest k
  end.

(** [m.has(k)]. *)
Definition Map_has {V : Type} (m : JsMap V) (k : string) : bool :=
  existsb (fun kv => String.eqb (fst kv) k) m.

(** [m.set(k, v)]: an existing key keeps its place, a new key goes last. *)
Fixpoint Map_set {V : Type} (m : JsMap V) (k : string) (v : V) : JsMap V :=
  match m with
  | [] => [(k, v)]
  | (k', v') :: rest =>
      if String.eqb k' k then (k, v) :: rest else (k', v') :: Map_set rest k v
  end.

(** [Array.from(m.values())] and [Array.from(m.keys())]. *)
Definition Map_values {V : Type} (m : JsMap V) : list V := map snd m.
Definition Map_keys {V : Type} (m : JsMap V) : list string := map fst m.

(* ===================================================================== *)
(** ** The outside world                                                  *)
(* ===================================================================== *)

(** The functions of [fs] that the loader calls. *)
Record FileSystem := {
  existsSync : string -> bool;
  readdirSync : string -> Completion (list string);
  readFileSync : string -> Completion string
}.

(** What the code imports from the language and from its dependencies. *)
Class Runtime := {
  toLowerCase : string -> string;
  path_join : string -> string -> string;
  JSON_parse : string -> Completion Parsed;
  yaml_parse : string -> Completion Parsed;
  Connection : Type;
  PublicKey : Type;
  PublicKey_new : string -> Completion PublicKey;
  PublicKey_toString : PublicKey -> string
}.

(** The logger: each call appends one record. *)
Inductive LogLevel : Type := LInfo | LWarn | LError.

Record LogRecord := {
  level : LogLevel;
  message : string;
  cause : option JsError
}.

(* ===================================================================== *)
(** ** State and the monad of operations                                  *)
(* ===================================================================== *)

Section Registry.
Context {RT : Runtime}.

Record ContextManager := {
  connection : Connection;
  contexts : JsMap ContextDefinition;
  contextPath : string
}.

Record State := {
  this : ContextManager;
  logs : list LogRecord
}.

Definition M (A : Type) : Type := State -> Completion A * State.

Definition ret {A : Type} (a : A) : M A := fun st => (Normal a, st).

Definition bind {A B : Type} (c : M A) (k : A -> M B) : M B :=
  fun st =>
    match c st with
    | (Normal a, st') => k a st'
    | (Throw e, st') => (Throw e, st')
    end.

(** The completion of a call into the outside world. *)
Definition call {A : Type} (r : Completion A) : M A := fun st => (r, st).

(** [try { body } catch (error) { handler }]: what [body] did to the state
    before it raised stays done. *)
Definition try_catch {A : Type} (body : M A) (handler : JsError -> M A) : M A :=
  fun st =>
    match body st with
    | (Normal a, st') => (Normal a, st')
    | (Throw e, st') => handler e st'
    end.

Definition get_this : M ContextManager := fun st => (Normal (this st), st).

Definition log (l : LogLevel) (msg : string) (err : option JsError) : M unit :=
  fun st =>
    (Normal tt,
     {| this := this st;
        logs := logs st ++ [{| level := l; message := msg; cause := err |}] |}).

Definition logger_info (msg : string) : M unit := log LInfo msg None.
Definition logger_warn (msg : string) : M unit := log LWarn msg None.
Definition logger_error (msg : string) (error : JsError) : M unit :=
  log LError msg (Some error).

(** The state with [this.contexts] replaced by [m]. *)
Definition with_contexts (st : State) (m : JsMap ContextDefinition) : State :=
  {| this := {| connection := connection (this st);
                contexts := m;
                contextPath := contextPath (this st) |};
     logs := logs st |}.

(** [this.contexts.set(k, v)]. *)
Definition contexts_set (k : string) (v : ContextDefinition) : M unit :=
  fun st => (Normal tt, with_contexts st (Map_set (contexts (this st)) k v)).

End Registry.

Declare Scope js_scope.
Delimit Scope js_scope with js.
Notation "x <- c ;; k" := (bind c (fun x => k))
  (at level 61, c at next level, right associativity) : js_scope.
Notation "c ;; k" := (bind c (fun _ => k))
  (at level 61, right associativity) : js_scope.
Local Open Scope js_scope.

(* ===================================================================== *)
(** ** The operations of [ContextManager]                                 *)
(* ===================================================================== *)

Section Operations.
Context {RT : Runtime}.

(** The test of line 67. *)
Definition recognized (file : string) : bool :=
  endsWith file ".yaml" || endsWith file ".yml" || endsWith file ".json".

(** Lines 73-77. *)
Definition parse_file (file content : string) : Completion Parsed :=
  if endsWith file ".json" then JSON_parse content else yaml_parse content.

(** A property read [contextDef.prop] needs an object: on [null] it raises. *)
Definition deref (p : Parsed) (prop : string) : Completion ContextDefinition :=
  match p with
  | PNull => Throw (TypeError_null prop)
  | PObject d => Normal d
  end.

(** The body of the [for] loop, lines 67-81; the result says whether
    [loadedCount++] ran. *)
Definition loadFile (fs : FileSystem) (file : string) : M bool :=
  if recognized file then
    mgr <- get_this ;;
    let filePath := path_join (contextPath mgr) file in
    content <- call (readFileSync fs filePath) ;;
    parsed <- call (parse_file file content) ;;
    contextDef <- call (deref parsed "id") ;;
    contexts_set (id contextDef) contextDef ;;
    ret true
  else ret false.

(** The [for] loop of lines 66-82, with the local [loadedCount]. *)
Fixpoint loadFiles (fs : FileSystem) (files : list string) (loadedCount : nat)
  : M nat :=
  match files with
  | [] => ret loadedCount
  | file :: rest =>
      counted <- loadFile fs file ;;
      loadFiles fs rest (if counted then S loadedCount else loadedCount)
  end.

Definition loadContexts (fs : FileSystem) : M unit :=
  try_catch
    (mgr <- get_this ;;
     if negb (existsSync fs (contextPath mgr)) then
       logger_warn ("Context path " ++ contextPath mgr ++ " does not exist")
     else
       files <- call (readdirSync fs (contextPath mgr)) ;;
       loadedCount <- loadFiles fs files 0 ;;
       logger_info ("Loaded " ++ Number_toString loadedCount ++
                    " context definitions from " ++ contextPath mgr))
    (fun error => logger_error "Failed to load context definitions:" error).

(** [new ContextManager(connection, contextPath)], run when the logger has
    written [logs0]; the manager built is [this] of the state returned. *)
Definition new_ContextManager (fs : FileSystem) (conn : Connection)
  (path : string) (logs0 : list LogRecord) : Completion unit * State :=
  loadContexts fs
    {| this := {| connection := conn;
                  contexts := Map_empty;
                  contextPath := path |};
       logs := logs0 |}.

(** [this.contexts.get(id) || null]; [None] is [null]. *)
Definition getContext (mgr : ContextManager) (id0 : string)
  : option ContextDefinition :=
  match Map_get (contexts mgr) id0 with
  | Some d => Some d
  | None => None
  end.

Definition getAllContexts (mgr : ContextManager) : list ContextDefinition :=
  Map_values (contexts mgr).

Definition getContextsByType (mgr : ContextManager) (t : ContextType)
  : list ContextDefinition :=
  filter (fun context => ContextType_strict_eq (type context) t)
         (Map_values (contexts mgr)).

(** The callback of [every], lines 126-130. *)
Definition hasCapability (context : ContextDefinition) (cap : string) : bool :=
  existsb (fun contextCap =>
             String.eqb (toLowerCase contextCap) (toLowerCase cap))
          (capabilities context).

(** The [for] loop of lines 125-135 with the array [matches]. *)
Fixpoint collectMatches (values : list ContextDefinition)
  (caps : list string) (matches : list ContextDefinition)
  : list ContextDefinition :=
  match values with
  | [] => matches
  | context :: rest =>
      let hasAllCapabilities := forallb (hasCapability context) caps in
      if hasAllCapabilities
      then collectMatches rest caps (matches ++ [context])
      else collectMatches rest caps matches
  end.

Definition findContextsByCapabilities (mgr : ContextManager)
  (caps : list string) : list ContextDefinition :=
  collectMatches (Map_values (contexts mgr)) caps [].

(** The base58 text of line 153. *)
Definition NEW_CONTEXT_ID : string :=
  "G6xptnrkj3Z3JegB3EqJPGqnVBKGLQXTqpEL9kHpMZN5".

(** [None] in the result is [null]. *)
Definition registerContext (contextDef : ContextDefinition)
  (authority : PublicKey) : M (option PublicKey) :=
  try_catch
    (newContextId <- call (PublicKey_new NEW_CONTEXT_ID) ;;
     contexts_set (id contextDef) contextDef ;;
     logger_info ("Registered new context: " ++ name contextDef ++
                  " (" ++ ContextType_value (type contextDef) ++
                  ") with ID " ++ PublicKey_toString newContextId) ;;
     ret (Some newContextId))
    (fun error =>
       logger_error ("Error registering context " ++ name contextDef ++ ":")
                    error ;;
       ret None).

Definition checkPermission (agentId : PublicKey) (contextId : string)
  : M bool :=
  ret true.

End Operations.

(* ===================================================================== *)
(** ** Notions used to state the properties                               *)
(* ===================================================================== *)

Section Notions.
Context {RT : Runtime}.

(** [file] of the directory [path] reads and parses to the definition [d]. *)
Definition loads_as (fs : FileSystem) (path file : string)
  (d : ContextDefinition) : Prop :=
  exists content,
    readFileSync fs (path_join path file) = Normal content /\
    parse_file file content = Normal (PObject d).

(** [file] of the directory [path] cannot be read, or its parser raises, or
    it parses to [null]: the loader raises [e] on it. *)
Definition fails_with (fs : FileSystem) (path file : string) (e : JsError)
  : Prop :=
  readFileSync fs (path_join path file) = Throw e \/
  exists content,
    readFileSync fs (path_join path file) = Normal content /\
    (parse_file file content = Throw e \/
     parse_file file content = Normal PNull /\ e = TypeError_null "id").

(** The map after [set(d.id, d)] for each [d] of [defs], in order. *)
Definition set_all (m : JsMap ContextDefinition) (defs : list ContextDefinition)
  : JsMap ContextDefinition :=
  fold_left (fun acc d => Map_set acc (id d) d) defs m.

(** Case-insensitive comparison of two capability strings. *)
Definition same_ignoring_case (a b : string) : Prop :=
  toLowerCase a = toLowerCase b.

(** The capability list of [context] contains every string of [caps], up to
    case. *)
Definition has_all (context : ContextDefinition) (caps : list string) : Prop :=
  forall cap, In cap caps ->
    exists contextCap,
      In contextCap (capabilities context) /\ same_ignoring_case contextCap cap.

(** The elements of [l] whose [key] is strictly equal to [t]. *)
Definition of_type {A : Type} (key : A -> ContextType) (l : list A)
  (t : ContextType) : list A :=
  filter (fun x => ContextType_strict_eq (key x) t) l.

(** Every key is held once, and is the [id] of the record stored under it. *)
Definition registry_ok (m : JsMap ContextDefinition) : Prop :=
  NoDup (Map_keys m) /\ Forall (fun kv => fst kv = id (snd kv)) m.

(** The states of a running server: the constructor ran, then any number of
    registrations. *)
Inductive reachable : State -> Prop :=
| reach_new fs conn path logs0 :
    reachable (snd (new_ContextManager fs conn path logs0))
| reach_register st contextDef authority :
    reachable st ->
    reachable (snd (registerContext contextDef authority st)).

End Notions.

(* ===================================================================== *)
(** ** A concrete world: the descriptors of the test-suite                *)
(* ===================================================================== *)

Definition jupiter : ContextDefinition :=
  {| id := "jupiter-dex-v4";
     name := "Jupiter Aggregator";
     description := "A liquidity aggregator for Solana";
     type := DEX;
     capabilities := ["token_swaps"; "route_optimization"];
     endpoint := Some "https://quote-api.jup.ag/v4";
     pubkey := None;
     authRequired := false;
     schema := None |}.

Definition magiceden : ContextDefinition :=
  {| id := "magiceden-v2";
     name := "Magic Eden NFT Marketplace";
     description := "NFT marketplace on Solana";
     type := NFT_MARKETPLACE;
     capabilities := ["nft_listing"; "nft_buying"];
     endpoint := Some "https://api-mainnet.magiceden.io/v2";
     pubkey := None;
     authRequired := false;
     schema := None |}.

Definition test_context : ContextDefinition :=
  {| id := "test-context";
     name := "Test Context";
     description := "A test context";
     type := ORACLE;
     capabilities := ["price_feed"];
     endpoint := None;
     pubkey := None;
     authRequired := false;
     schema := None |}.

(** A second definition under the id of [jupiter]. *)
Definition jupiter_v2 : ContextDefinition :=
  {| id := "jupiter-dex-v4";
     name := "Jupiter Aggregator (mirror)";
     description := "A second descriptor of the same context";
     type := DEX;
     capabilities := ["Token_Swaps"];
     endpoint := None;
     pubkey := None;
     authRequired := true;
     schema := None |}.

(** [s.includes(sub)]. *)
Definition includes (s sub : string) : bool :=
  match index 0 sub s with
  | Some _ => true
  | None => false
  end.

Definition SyntaxError : JsError :=
  {| errName := "SyntaxError"; errMessage := "Unexpected end of input" |}.

Definition ENOENT : JsError :=
  {| errName := "Error"; errMessage := "ENOENT: no such file or directory" |}.

Definition InvalidKey : JsError :=
  {| errName := "Error"; errMessage := "Invalid public key input" |}.

(** A parser that knows the descriptors above by a word of their text, reads
    the empty document as [null] and rejects the rest. *)
Definition test_parse (content : string) : Completion Parsed :=
  if includes content "mirror" then Normal (PObject jupiter_v2)
  else if includes content "jupiter" then Normal (PObject jupiter)
  else if includes content "magiceden" then Normal (PObject magiceden)
  else if String.eqb content "" then Normal PNull
  else Throw SyntaxError.

(** A runtime for ASCII text, with keys kept as their base58 text. *)
Definition test_runtime : Runtime :=
  {| toLowerCase := ascii_toLowerCase;
     path_join := fun dir file => (dir ++ "/" ++ file)%string;
     JSON_parse := test_parse;
     yaml_parse := test_parse;
     Connection := unit;
     PublicKey := string;
     PublicKey_new := fun s =>
       if Nat.eqb (String.length s) 44 then Normal s else Throw InvalidKey;
     PublicKey_toString := fun k => k |}.

(** The same runtime with a constructor of keys that rejects every text. *)
Definition rejecting_runtime : Runtime :=
  {| toLowerCase := ascii_toLowerCase;
     path_join := fun dir file => (dir ++ "/" ++ file)%string;
     JSON_parse := test_parse;
     yaml_parse := test_parse;
     Connection := unit;
     PublicKey := string;
     PublicKey_new := fun _ => Throw InvalidKey;
     PublicKey_toString := fun k => k |}.

(** A file system with the single directory [dir] holding [entries] (name and
    text). *)
Definition dir_fs (dir : string) (entries : list (string * string)) : FileSystem :=
  {| existsSync := fun p => String.eqb p dir;
     readdirSync := fun p =>
       if String.eqb p dir then Normal (map fst entries) else Throw ENOENT;
     readFileSync := fun p =>
       match find (fun e => String.eqb (dir ++ "/" ++ fst e)%string p) entries with
       | Some e => Normal (snd e)
       | None => Throw ENOENT
       end |}.

Definition CONTEXTS_DIR : string := "/path/to/contexts".

(** The directory of tests/context-manager.test.ts. *)
Definition test_fs : FileSystem :=
  dir_fs CONTEXTS_DIR
    [("jupiter-dex.yaml", "id: jupiter-dex-v4 name: Jupiter Aggregator type: dex");
     ("magiceden-marketplace.yaml", "id: magiceden-v2 name: Magic Eden type: nft_marketplace");
     ("test.txt", "")].

(** A directory whose first descriptor is cut short. *)
Definition broken_first_fs : FileSystem :=
  dir_fs CONTEXTS_DIR
    [("broken.json", "{ ");
     ("jupiter-dex.yaml", "id: jupiter-dex-v4 name: Jupiter Aggregator type: dex")].

(** A directory with two descriptors of one id. *)
Definition same_id_fs : FileSystem :=
  dir_fs CONTEXTS_DIR
    [("jupiter-dex.yaml", "id: jupiter-dex-v4 name: Jupiter Aggregator type: dex");
     ("jupiter-mirror.yaml", "id: jupiter-dex-v4 name: Jupiter Aggregator (mirror)");
     ("notes.txt", "not a descriptor")].

(** A directory whose second descriptor is cut short. *)
Definition broken_middle_fs : FileSystem :=
  dir_fs CONTEXTS_DIR
    [("jupiter-dex.yaml", "id: jupiter-dex-v4 name: Jupiter Aggregator type: dex");
     ("README.md", "descriptors of the contexts");
     ("broken.json", "{ ");
     ("magiceden-marketplace.yaml", "id: magiceden-v2 name: Magic Eden type: nft_marketplace")].

(** The manager of the test-suite, and the state after its constructor. *)
Definition test_state : @State test_runtime :=
  snd (@new_ContextManager test_runtime test_fs tt CONTEXTS_DIR []).

Definition test_manager : @ContextManager test_runtime := this test_state.

(** The manager built on the directory with two descriptors of one id. *)
Definition mirror_manager : @ContextManager test_runtime :=
  this (snd (@new_ContextManager test_runtime same_id_fs tt CONTEXTS_DIR [])).

(** A manager of the runtime that rejects every key, holding nothing. *)
Definition rejecting_state : @State rejecting_runtime :=
  @Build_State rejecting_runtime
    (@Build_ContextManager rejecting_runtime tt Map_empty CONTEXTS_DIR) [].

(* ===================================================================== *)
(** ** The Map                                                            *)
(* ===================================================================== *)

(* ===================================================================== *)
(** * The other managers of the server

    [WalletManager] (src/wallet-manager.ts), [AgentManager]
    (src/agent-manager.ts), the context routes of the REST layer and the
    price cache of the Binance example, on the same conventions. What these
    import from the agent package and from web3.js is the class
    [Libraries]. *)
(* ===================================================================== *)

Unset Implicit Arguments.

From Stdlib Require Import ZArith.
From Stdlib Require QArith Qround.

(** [m.delete(k)]: the entry under [k] goes, the others keep their order. *)
Fixpoint Map_delete {V : Type} (m : JsMap V) (k : string) : JsMap V :=
  match m with
  | [] => []
  | (k', v) :: rest =>
      if String.eqb k' k then Map_delete rest k
      else (k', v) :: Map_delete rest k
  end.

(** The monad of operations over any state [S]. *)
Section Effects.
Variable S : Type.

Definition Eff (A : Type) : Type := S -> Completion A * S.

Definition eff_ret {A : Type} (a : A) : Eff A := fun st => (Normal a, st).

Definition eff_bind {A B : Type} (c : Eff A) (k : A -> Eff B) : Eff B :=
  fun st =>
    match c st with
    | (Normal a, st') => k a st'
    | (Throw e, st') => (Throw e, st')
    end.

Definition eff_call {A : Type} (r : Completion A) : Eff A := fun st => (r, st).

Definition eff_throw {A : Type} (e : JsError) : Eff A := fun st => (Throw e, st).

Definition eff_get : Eff S := fun st => (Normal st, st).

Definition eff_try {A : Type} (body : Eff A) (handler : JsError -> Eff A)
  : Eff A :=
  fun st =>
    match body st with
    | (Normal a, st') => (Normal a, st')
    | (Throw e, st') => handler e st'
    end.

End Effects.

Arguments eff_ret {S A} a.
Arguments eff_bind {S A B} c k.
Arguments eff_call {S A} r.
Arguments eff_throw {S A} e.
Arguments eff_get {S}.
Arguments eff_try {S A} body handler.

Declare Scope eff_scope.
Delimit Scope eff_scope with eff.
Notation "x <- c ;; k" := (eff_bind c (fun x => k))
  (at level 61, c at next level, right associativity) : eff_scope.
Notation "c ;; k" := (eff_bind c (fun _ => k))
  (at level 61, right associativity) : eff_scope.

(** [array.map(f)] for an [f] that can raise: it stops at the first raise. *)
Fixpoint Array_map {A B : Type} (f : A -> Completion B) (l : list A)
  : Completion (list B) :=
  match l with
  | [] => Normal []
  | x :: rest =>
      match f x with
      | Throw e => Throw e
      | Normal y =>
          match Array_map f rest with
          | Throw e => Throw e
          | Normal ys => Normal (y :: ys)
          end
      end
  end.

(** The options given to the two agent constructors (agent-manager.ts,
    lines 79-83 and 86-90). *)
Section AgentOptions.
Context {RT : Runtime}.

Record DeFiAgentOptions := {
  defi_agentId : PublicKey;
  defi_connection : Connection;
  supportedDexes : list string;
  defaultSlippageBps : nat
}.

Record NFTAgentOptions := {
  nft_agentId : PublicKey;
  nft_connection : Connection;
  supportedMarketplaces : list string;
  defaultRoyaltyBps : nat
}.

End AgentOptions.

(** What the managers import from mcp-agents and web3.js. A transaction is
    signed in place; [partialSign] gives the transaction as it is after. *)
Class Libraries {RT : Runtime} := {
  Agent : Type;
  Agent_getName : Agent -> Completion string;
  new_SolanaDeFiAgent : DeFiAgentOptions -> Completion Agent;
  new_NFTMarketAgent : NFTAgentOptions -> Completion Agent;
  Keypair : Type;
  Keypair_publicKey : Keypair -> PublicKey;
  Transaction : Type;
  partialSign : Transaction -> Keypair -> Completion Transaction
}.

(* ===================================================================== *)
(** ** [WalletManager]                                                    *)
(* ===================================================================== *)

Module Wallet.
Section Defs.
Context {RT : Runtime} {LIB : Libraries}.
Local Open Scope eff_scope.

(** The interface [WalletProvider]; an [async] method gives its completion. *)
Record WalletProvider := {
  publicKey : PublicKey;
  signTransaction : Transaction -> Completion Transaction;
  signAllTransactions : list Transaction -> Completion (list Transaction);
  connect : unit -> Completion PublicKey;
  disconnect : unit -> Completion unit
}.

Record WalletManager := {
  connection : Connection;
  connectedWallets : JsMap WalletProvider
}.

Record State := {
  this : WalletManager;
  logs : list LogRecord
}.

Definition log (l : LogLevel) (msg : string) (err : option JsError)
  : Eff State unit :=
  fun st =>
    (Normal tt,
     {| this := this st;
        logs := logs st ++ [{| level := l; message := msg; cause := err |}] |}).

Definition logger_info (msg : string) : Eff State unit := log LInfo msg None.
Definition logger_warn (msg : string) : Eff State unit := log LWarn msg None.
Definition logger_error (msg : string) (error : JsError) : Eff State unit :=
  log LError msg (Some error).

(** The state with [this.connectedWallets] replaced by [m]. *)
Definition with_wallets (st : State) (m : JsMap WalletProvider) : State :=
  {| this := {| connection := connection (this st); connectedWallets := m |};
     logs := logs st |}.

Definition new_WalletManager (conn : Connection) : WalletManager :=
  {| connection := conn; connectedWallets := Map_empty |}.

Definition registerWallet (publicKey0 : PublicKey) (provider : WalletProvider)
  : Eff State unit :=
  let pubkeyStr := PublicKey_toString publicKey0 in
  (fun st =>
     (Normal tt,
      with_wallets st (Map_set (connectedWallets (this st)) pubkeyStr provider))) ;;
  logger_info ("Wallet registered: " ++ pubkeyStr).

(** [this.connectedWallets.get(pubkeyStr) || null]; [None] is [null]. *)
Definition getWallet (mgr : WalletManager) (publicKey0 : PublicKey)
  : option WalletProvider :=
  let pubkeyStr := PublicKey_toString publicKey0 in
  match Map_get (connectedWallets mgr) pubkeyStr with
  | Some provider => Some provider
  | None => None
  end.

Definition removeWallet (publicKey0 : PublicKey) : Eff State unit :=
  let pubkeyStr := PublicKey_toString publicKey0 in
  (fun st =>
     (Normal tt,
      with_wallets st (Map_delete (connectedWallets (this st)) pubkeyStr))) ;;
  logger_info ("Wallet removed: " ++ pubkeyStr).

Definition setupAgentForWallet (agent : Agent) (walletPublicKey : PublicKey)
  : Eff State bool :=
  eff_try
    (st <- eff_get ;;
     match getWallet (this st) walletPublicKey with
     | None =>
         logger_warn ("Wallet " ++ PublicKey_toString walletPublicKey ++
                      " not found") ;;
         eff_ret false
     | Some wallet =>
         agentName <- eff_call (Agent_getName agent) ;;
         logger_info ("Agent " ++ agentName ++ " set up with wallet " ++
                      PublicKey_toString walletPublicKey) ;;
         eff_ret true
     end)
    (fun error =>
       logger_error "Error setting up agent with wallet:" error ;;
       eff_ret false).

(** The provider of lines 95-117, closed over [keypair]. *)
Definition localProvider (keypair : Keypair) : WalletProvider :=
  let publicKey0 := Keypair_publicKey keypair in
  {| publicKey := publicKey0;
     signTransaction := fun transaction => partialSign transaction keypair;
     signAllTransactions := fun transactions =>
       Array_map (fun tx => partialSign tx keypair) transactions;
     connect := fun _ => Normal publicKey0;
     disconnect := fun _ => Normal tt |}.

(** [createLocalWallet()], [keypair] being what [Keypair.generate()] drew. *)
Definition createLocalWallet (keypair : Keypair)
  : Eff State (PublicKey * WalletProvider) :=
  let publicKey0 := Keypair_publicKey keypair in
  let provider := localProvider keypair in
  registerWallet publicKey0 provider ;;
  eff_ret (publicKey0, provider).

End Defs.
End Wallet.

(* ===================================================================== *)
(** ** [AgentManager]                                                     *)
(* ===================================================================== *)

(** [obj[k]] on an object literal with string values; [None] is
    [undefined]. The keys looked up are texts of public keys, which are never
    names of inherited properties. *)
Fixpoint property (obj : list (string * string)) (k : string) : option string :=
  match obj with
  | [] => None
  | (k', v) :: rest => if String.eqb k' k then Some v else property rest k
  end.

(** Truthiness of a value that is a string or [undefined]/[null]. *)
Definition truthy (v : option string) : bool :=
  match v with
  | Some s => negb (String.eqb s "")
  | None => false
  end.

(** [array[i]] for an integer [i]; [None] is [undefined]. *)
Definition Array_at {A : Type} (l : list A) (i : Z) : option A :=
  if (i <? 0)%Z then None else nth_error l (Z.to_nat i).

Module Agents.
Section Defs.
Context {RT : Runtime} {LIB : Libraries}.
Local Open Scope eff_scope.

Record AgentManager := {
  connection : Connection;
  contextManager : ContextManager;
  agents : JsMap Agent
}.

Record State := {
  this : AgentManager;
  logs : list LogRecord
}.

Definition log (l : LogLevel) (msg : string) (err : option JsError)
  : Eff State unit :=
  fun st =>
    (Normal tt,
     {| this := this st;
        logs := logs st ++ [{| level := l; message := msg; cause := err |}] |}).

Definition logger_info (msg : string) : Eff State unit := log LInfo msg None.
Definition logger_warn (msg : string) : Eff State unit := log LWarn msg None.
Definition logger_error (msg : string) (error : JsError) : Eff State unit :=
  log LError msg (Some error).

Definition new_AgentManager (conn : Connection) (ctx : ContextManager)
  : AgentManager :=
  {| connection := conn; contextManager := ctx; agents := Map_empty |}.

(** [this.agents.set(k, agent)]. *)
Definition agents_set (k : string) (agent : Agent) : Eff State unit :=
  fun st =>
    (Normal tt,
     {| this := {| connection := connection (this st);
                   contextManager := contextManager (this st);
                   agents := Map_set (agents (this st)) k agent |};
        logs := logs st |}).

(** The object literal of lines 110-113. *)
Definition agentMapping : list (string * string) :=
  [("3XysKy...", "defi"); ("5tGpV9...", "nft")].

(** [getAgentType(agentId)], [random] being what [Math.random()] returned;
    the product with the length 2 and its floor are exact on such a number.
    [None] is [undefined] or [null]. *)
Definition getAgentType (agentId : PublicKey) (random : QArith_base.Q)
  : option string :=
  if negb (truthy (property agentMapping (PublicKey_toString agentId))) then
    let types := ["defi"; "nft"] in
    Array_at types
      (Qround.Qfloor
         (QArith_base.Qmult random
            (QArith_base.inject_Z (Z.of_nat (List.length types)))))
  else
    if truthy (property agentMapping (PublicKey_toString agentId))
    then property agentMapping (PublicKey_toString agentId)
    else None.

Definition createAgentByType (agentId : PublicKey) (type0 : string)
  : Eff State (option Agent) :=
  st <- eff_get ;;
  let baseContext := (agentId, connection (this st)) in
  eff_try
    (if String.eqb type0 "defi" then
       agent <- eff_call (new_SolanaDeFiAgent
                  {| defi_agentId := fst baseContext;
                     defi_connection := snd baseContext;
                     supportedDexes := ["Jupiter"; "Raydium"];
                     defaultSlippageBps := 50 |}) ;;
       eff_ret (Some agent)
     else if String.eqb type0 "nft" then
       agent <- eff_call (new_NFTMarketAgent
                  {| nft_agentId := fst baseContext;
                     nft_connection := snd baseContext;
                     supportedMarketplaces := ["Magic Eden"; "Tensor"];
                     defaultRoyaltyBps := 500 |}) ;;
       eff_ret (Some agent)
     else
       logger_warn ("Unknown agent type: " ++ type0) ;;
       eff_ret None)
    (fun error =>
       logger_error ("Error creating agent of type " ++ type0 ++ ":") error ;;
       eff_ret None).

(** [getAgent(agentId)], one call run to its end; [None] is [null]. *)
Definition getAgent (agentId : PublicKey) (random : QArith_base.Q)
  : Eff State (option Agent) :=
  let agentIdStr := PublicKey_toString agentId in
  st <- eff_get ;;
  if Map_has (agents (this st)) agentIdStr then
    eff_ret (match Map_get (agents (this st)) agentIdStr with
             | Some agent => Some agent
             | None => None
             end)
  else
    eff_try
      (let agentType := getAgentType agentId random in
       if negb (truthy agentType) then
         logger_warn ("Agent " ++ agentIdStr ++ " not found in registry") ;;
         eff_ret None
       else
         agent <- createAgentByType agentId
                    (match agentType with Some t => t | None => "" end) ;;
         match agent with
         | Some a => agents_set agentIdStr a ;; eff_ret agent
         | None => eff_ret agent
         end)
      (fun error =>
         logger_error ("Error getting agent " ++ agentIdStr ++ ":") error ;;
         eff_ret None).

(** The base58 text of line 141. *)
Definition NEW_AGENT_ID : string :=
  "3Xm6F4v3UKqZphALNuMpMEKRvRqQhBiN7DUBwihMTmup".

Definition registerAgent (name0 type0 : string) (authority : PublicKey)
  : Eff State (option PublicKey) :=
  eff_try
    (newAgentId <- eff_call (PublicKey_new NEW_AGENT_ID) ;;
     logger_info ("Registered new agent: " ++ name0 ++ " (" ++ type0 ++
                  ") with ID " ++ PublicKey_toString newAgentId) ;;
     eff_ret (Some newAgentId))
    (fun error =>
       logger_error ("Error registering agent " ++ name0 ++ ":") error ;;
       eff_ret None).

End Defs.
End Agents.

(* ===================================================================== *)
(** ** The context routes of the REST layer                               *)
(* ===================================================================== *)

Module Api.
Section Defs.
Context {RT : Runtime}.

(** What a handler sends: the status and the value given to [res.json]. *)
Inductive Body : Type :=
| JsonContexts (l : list ContextDefinition)
| JsonContext (d : ContextDefinition)
| JsonError (error : string).

Record Response := { status : nat; body : Body }.

(** [GET /contexts]. *)
Definition get_contexts (mgr : ContextManager) : Response :=
  {| status := 200; body := JsonContexts (getAllContexts mgr) |}.

(** [GET /contexts/:id]. *)
Definition get_context_by_id (mgr : ContextManager) (id0 : string) : Response :=
  match getContext mgr id0 with
  | None => {| status := 404; body := JsonError "Context not found" |}
  | Some context => {| status := 200; body := JsonContext context |}
  end.

End Defs.
End Api.

(* ===================================================================== *)
(** ** The price cache of the Binance example                             *)
(* ===================================================================== *)

Module Binance.

Record BinanceMarketData := {
  symbol : string;
  price : string;
  time : Z
}.

(** The fields of a ticker message that the handler reads. *)
Record TickerMessage := {
  s : string;
  c : string;
  E : Z
}.

(** The part of [BinanceContext] that the price path uses, and what was
    written with [console.error]. *)
Record State := {
  marketData : JsMap BinanceMarketData;
  console : list LogRecord
}.

Section Defs.
(** [axios.get] on the ticker endpoint for [symbol], with [data.price] read
    from the reply. *)
Variable axios_get_price : string -> Completion string.
Local Open Scope eff_scope.

Definition handleTickerMessage (message0 : TickerMessage) : Eff State unit :=
  let marketData0 :=
    {| symbol := s message0; price := c message0; time := E message0 |} in
  fun st =>
    (Normal tt,
     {| marketData := Map_set (marketData st) (s message0) marketData0;
        console := console st |}).

Definition console_error (msg : string) (error : JsError) : Eff State unit :=
  fun st =>
    (Normal tt,
     {| marketData := marketData st;
        console := console st ++
          [{| level := LError; message := msg; cause := Some error |}] |}).

Definition getPrice (symbol0 : string) : Eff State string :=
  eff_try
    (st <- eff_get ;;
     if Map_has (marketData st) symbol0 then
       match Map_get (marketData st) symbol0 with
       | Some data => eff_ret (price data)
       | None =>
           eff_throw
             {| errName := "TypeError";
                errMessage :=
                  "Cannot read properties of undefined (reading 'price')" |}
       end
     else
       eff_call (axios_get_price symbol0))
    (fun error =>
       console_error ("Error fetching price for " ++ symbol0 ++ ":") error ;;
       eff_throw {| errName := "Error";
                    errMessage := "Failed to get price for " ++ symbol0 |}).

End Defs.
End Binance.

(* ===================================================================== *)
(** ** The registry over the values the parsers return

    [loadContexts] stores what [JSON.parse] or [yaml.parse] returns without
    a check (lines 71-79): the value held under an id need not have the
    fields of [ContextDefinition]. This module embeds the loader and the
    two filtering queries over such values, with the errors a property read
    or a method call raises on them. Records given to [registerContext]
    are of the interface; [to_raw] is such a record as a value. *)
(* ===================================================================== *)

Module Raw.

(** A value of the language as a parser builds it; [Num] is the type of its
    numbers. *)
#[warnings="-register-all"] Inductive JsValue (Num : Type) : Type :=
| JUndefined
| JNull
| JBool (b : bool)
| JNumber (n : Num)
| JString (s : string)
| JArray (items : list (JsValue Num))
| JObject (fields : list (string * JsValue Num)).

Arguments JUndefined {Num}.
Arguments JNull {Num}.
Arguments JBool {Num} b.
Arguments JNumber {Num} n.
Arguments JString {Num} s.
Arguments JArray {Num} items.
Arguments JObject {Num} fields.

Definition optional_field {Num : Type} (p : string) (v : option string)
  : list (string * JsValue Num) :=
  match v with
  | Some s => [(p, JString s)]
  | None => []
  end.

(** A record of the interface as a value. *)
Definition to_raw {Num : Type} (d : ContextDefinition) : JsValue Num :=
  JObject
    ([("id", JString (id d));
      ("name", JString (name d));
      ("description", JString (description d));
      ("type", JString (ContextType_value (type d)));
      ("capabilities", JArray (map JString (capabilities d)))] ++
     optional_field "endpoint" (endpoint d) ++
     optional_field "pubkey" (pubkey d) ++
     [("authRequired", JBool (authRequired d))] ++
     match schema d with
     | Some fields =>
         [("schema", JObject (map (fun kv => (fst kv, JString (snd kv))) fields))]
     | None => []
     end).

(** The parsers, and equality of two numbers as keys of a [Map]. *)
Class Parsers := {
  Num : Type;
  Num_sameValueZero : Num -> Num -> bool;
  JSON_parse_any : string -> Completion (JsValue Num);
  yaml_parse_any : string -> Completion (JsValue Num)
}.

Section Defs.
Context {RT : Runtime} {PS : Parsers}.
Local Open Scope eff_scope.

Definition Value : Type := JsValue Num.

Definition TypeError (msg : string) : JsError :=
  {| errName := "TypeError"; errMessage := msg |}.

(** Equality of two keys of a [Map]. An array or an object is a key by
    reference, and each one a parser builds is a new reference. *)
Definition sameValueZero (a b : Value) : bool :=
  match a, b with
  | JUndefined, JUndefined => true
  | JNull, JNull => true
  | JBool x, JBool y => Bool.eqb x y
  | JNumber x, JNumber y => Num_sameValueZero x y
  | JString x, JString y => String.eqb x y
  | _, _ => false
  end.

Fixpoint own_property (fields : list (string * Value)) (p : string) : Value :=
  match fields with
  | [] => JUndefined
  | (k, v) :: rest => if String.eqb k p then v else own_property rest p
  end.

(** [v.p] for [p] among [id], [type] and [capabilities], which no prototype
    defines: an own field of an object, [undefined] on any other value but
    [null] and [undefined], on which the read raises. *)
Definition get_prop (v : Value) (p : string) : Completion Value :=
  match v with
  | JUndefined =>
      Throw (TypeError ("Cannot read properties of undefined (reading '" ++
                        p ++ "')"))
  | JNull =>
      Throw (TypeError ("Cannot read properties of null (reading '" ++
                        p ++ "')"))
  | JObject fields => Normal (own_property fields p)
  | _ => Normal JUndefined
  end.

(** [v === s] for a string [s]. *)
Definition strict_equals_string (v : Value) (s : string) : bool :=
  match v with
  | JString x => String.eqb x s
  | _ => false
  end.

(** [v.toLowerCase()]: defined on strings only. *)
Definition call_toLowerCase (v : Value) : Completion string :=
  match v with
  | JString s => Normal (toLowerCase s)
  | JUndefined =>
      Throw (TypeError "Cannot read properties of undefined (reading 'toLowerCase')")
  | JNull =>
      Throw (TypeError "Cannot read properties of null (reading 'toLowerCase')")
  | _ => Throw (TypeError "contextCap.toLowerCase is not a function")
  end.

(** [items.some(f)]: stops at the first [true], or at the first raise. *)
Fixpoint Array_some (f : Value -> Completion bool) (items : list Value)
  : Completion bool :=
  match items with
  | [] => Normal false
  | x :: rest =>
      match f x with
      | Throw e => Throw e
      | Normal true => Normal true
      | Normal false => Array_some f rest
      end
  end.

(** [v.some(f)]: defined on arrays only. *)
Definition call_some (v : Value) (f : Value -> Completion bool)
  : Completion bool :=
  match v with
  | JArray items => Array_some f items
  | JUndefined =>
      Throw (TypeError "Cannot read properties of undefined (reading 'some')")
  | JNull =>
      Throw (TypeError "Cannot read properties of null (reading 'some')")
  | _ => Throw (TypeError "context.capabilities.some is not a function")
  end.

(** [caps.every(f)]: stops at the first [false], or at the first raise. *)
Fixpoint Array_every (f : string -> Completion bool) (caps : list string)
  : Completion bool :=
  match caps with
  | [] => Normal true
  | cap :: rest =>
      match f cap with
      | Throw e => Throw e
      | Normal false => Normal false
      | Normal true => Array_every f rest
      end
  end.

(** [values.filter(f)]. *)
Fixpoint Array_filter (f : Value -> Completion bool) (values : list Value)
  : Completion (list Value) :=
  match values with
  | [] => Normal []
  | x :: rest =>
      match f x with
      | Throw e => Throw e
      | Normal keep =>
          match Array_filter f rest with
          | Throw e => Throw e
          | Normal kept => Normal (if keep then x :: kept else kept)
          end
      end
  end.

(** The [Map] of the manager, keyed by whatever [contextDef.id] is. *)
Definition AnyMap : Type := list (Value * Value).

Fixpoint Map_set (m : AnyMap) (k v : Value) : AnyMap :=
  match m with
  | [] => [(k, v)]
  | (k', v') :: rest =>
      if sameValueZero k' k then (k, v) :: rest else (k', v') :: Map_set rest k v
  end.

Definition Map_values (m : AnyMap) : list Value := map snd m.

Record ContextManager := {
  connection : Connection;
  contexts : AnyMap;
  contextPath : string
}.

Record State := {
  this : ContextManager;
  logs : list LogRecord
}.

Definition log (l : LogLevel) (msg : string) (err : option JsError)
  : Eff State unit :=
  fun st =>
    (Normal tt,
     {| this := this st;
        logs := logs st ++ [{| level := l; message := msg; cause := err |}] |}).

Definition logger_info (msg : string) : Eff State unit := log LInfo msg None.
Definition logger_warn (msg : string) : Eff State unit := log LWarn msg None.
Definition logger_error (msg : string) (error : JsError) : Eff State unit :=
  log LError msg (Some error).

Definition with_contexts (st : State) (m : AnyMap) : State :=
  {| this := {| connection := connection (this st);
                contexts := m;
                contextPath := contextPath (this st) |};
     logs := logs st |}.

Definition contexts_set (k v : Value) : Eff State unit :=
  fun st => (Normal tt, with_contexts st (Map_set (contexts (this st)) k v)).

(** Lines 73-77. *)
Definition parse_file (file content : string) : Completion Value :=
  if endsWith file ".json" then JSON_parse_any content
  else yaml_parse_any content.

(** The body of the [for] loop, lines 67-81. *)
Definition loadFile (fs : FileSystem) (file : string) : Eff State bool :=
  if recognized file then
    st <- eff_get ;;
    let filePath := path_join (contextPath (this st)) file in
    content <- eff_call (readFileSync fs filePath) ;;
    contextDef <- eff_call (parse_file file content) ;;
    key <- eff_call (get_prop contextDef "id") ;;
    contexts_set key contextDef ;;
    eff_ret true
  else eff_ret false.

Fixpoint loadFiles (fs : FileSystem) (files : list string) (loadedCount : nat)
  : Eff State nat :=
  match files with
  | [] => eff_ret loadedCount
  | file :: rest =>
      counted <- loadFile fs file ;;
      loadFiles fs rest (if counted then S loadedCount else loadedCount)
  end.

Definition loadContexts (fs : FileSystem) : Eff State unit :=
  eff_try
    (st <- eff_get ;;
     if negb (existsSync fs (contextPath (this st))) then
       logger_warn ("Context path " ++ contextPath (this st) ++
                    " does not exist")
     else
       files <- eff_call (readdirSync fs (contextPath (this st))) ;;
       loadedCount <- loadFiles fs files 0 ;;
       logger_info ("Loaded " ++ Number_toString loadedCount ++
                    " context definitions from " ++ contextPath (this st)))
    (fun error => logger_error "Failed to load context definitions:" error).

Definition new_ContextManager (fs : FileSystem) (conn : Connection)
  (path : string) (logs0 : list LogRecord) : Completion unit * State :=
  loadContexts fs
    {| this := {| connection := conn; contexts := []; contextPath := path |};
       logs := logs0 |}.

Definition getAllContexts (mgr : ContextManager) : list Value :=
  Map_values (contexts mgr).

(** Lines 112-115, for any string given as the type. *)
Definition getContextsByType (mgr : ContextManager) (type0 : string)
  : Completion (list Value) :=
  Array_filter
    (fun context =>
       match get_prop context "type" with
       | Throw e => Throw e
       | Normal contextType => Normal (strict_equals_string contextType type0)
       end)
    (Map_values (contexts mgr)).

(** The callback of [every], lines 126-130. *)
Definition hasCapability (context : Value) (cap : string) : Completion bool :=
  match get_prop context "capabilities" with
  | Throw e => Throw e
  | Normal capabilities0 =>
      call_some capabilities0
        (fun contextCap =>
           match call_toLowerCase contextCap with
           | Throw e => Throw e
           | Normal lowered => Normal (String.eqb lowered (toLowerCase cap))
           end)
  end.

(** The [for] loop of lines 125-135. *)
Fixpoint collectMatches (values : list Value) (caps : list string)
  (matches : list Value) : Completion (list Value) :=
  match values with
  | [] => Normal matches
  | context :: rest =>
      match Array_every (hasCapability context) caps with
      | Throw e => Throw e
      | Normal true => collectMatches rest caps (matches ++ [context])
      | Normal false => collectMatches rest caps matches
      end
  end.

Definition findContextsByCapabilities (mgr : ContextManager)
  (caps : list string) : Completion (list Value) :=
  collectMatches (Map_values (contexts mgr)) caps [].

(** Lines 147-165; the record is of the interface. *)
Definition registerContext (contextDef : ContextDefinition)
  (authority : PublicKey) : Eff State (option PublicKey) :=
  eff_try
    (newContextId <- eff_call (PublicKey_new NEW_CONTEXT_ID) ;;
     contexts_set (JString (id contextDef)) (to_raw contextDef) ;;
     logger_info ("Registered new context: " ++ name contextDef ++
                  " (" ++ ContextType_value (type contextDef) ++
                  ") with ID " ++ PublicKey_toString newContextId) ;;
     eff_ret (Some newContextId))
    (fun error =>
       logger_error ("Error registering context " ++ name contextDef ++ ":")
                    error ;;
       eff_ret None).

(** What the handler of [GET /contexts/type/:type] sends. *)
Inductive Body : Type :=
| JsonValues (l : list Value)
| JsonError (error : string).

Record Response := { status : nat; body : Body }.

(** The handler of [GET /contexts/type/:type] (api, lines 156-164).
    [res_json] is [res.json] on the list, which raises when the list cannot
    be serialised; the reply of the [catch] is a literal. *)
Definition get_contexts_by_type (res_json : list Value -> Completion unit)
  (mgr : ContextManager) (type0 : string) : Response :=
  match
    match getContextsByType mgr type0 with
    | Throw e => Throw e
    | Normal contexts0 =>
        match res_json contexts0 with
        | Throw e => Throw e
        | Normal _ => Normal contexts0
        end
    end
  with
  | Normal contexts0 => {| status := 200; body := JsonValues contexts0 |}
  | Throw _ => {| status := 400; body := JsonError "Invalid context type" |}
  end.

(** *** Notions *)

(** The strings of [items], when all of them are strings. *)
Fixpoint strings_of (items : list Value) : option (list string) :=
  match items with
  | [] => Some []
  | JString s :: rest =>
      match strings_of rest with
      | Some l => Some (s :: l)
      | None => None
      end
  | _ :: _ => None
  end.

(** The capabilities of a held value, when it has an array of strings under
    [capabilities]. *)
Definition capabilities_of (v : Value) : option (list string) :=
  match get_prop v "capabilities" with
  | Normal (JArray items) => strings_of items
  | _ => None
  end.

(** The type of a held value, when it has a string under [type]. *)
Definition type_of (v : Value) : option string :=
  match get_prop v "type" with
  | Normal (JString s) => Some s
  | _ => None
  end.

Definition has_type (type0 : string) (v : Value) : bool :=
  match type_of v with
  | Some s => String.eqb s type0
  | None => false
  end.

(** The member of the enum whose value is the type of [v], if any. *)
Definition type_member (v : Value) : option ContextType :=
  match type_of v with
  | Some s => find (fun t => String.eqb (ContextType_value t) s) ContextType_all
  | None => None
  end.

Definition has_recognized_type (v : Value) : bool :=
  match type_member v with
  | Some _ => true
  | None => false
  end.

(** The test of [every] and [some] on a list of strings [held]. *)
Definition holds_all (held caps : list string) : bool :=
  forallb (fun cap =>
             existsb (fun contextCap =>
                        String.eqb (toLowerCase contextCap) (toLowerCase cap))
                     held)
          caps.

(** [v] has an array of strings under [capabilities] that contains every
    string of [caps], up to case. *)
Definition has_all (v : Value) (caps : list string) : Prop :=
  exists held,
    capabilities_of v = Some held /\
    forall cap, In cap caps ->
      exists contextCap, In contextCap held /\ same_ignoring_case contextCap cap.

(** Neither [null] nor [undefined]. *)
Definition is_held_value (v : Value) : Prop :=
  v <> JNull /\ v <> JUndefined.

(** The states of a running server. *)
Inductive reachable : State -> Prop :=
| reach_new fs conn path logs0 :
    reachable (snd (new_ContextManager fs conn path logs0))
| reach_register st contextDef authority :
    reachable st ->
    reachable (snd (registerContext contextDef authority st)).

End Defs.
End Raw.

(** A manager of records of the interface, as the manager of their
    values. *)
Definition manager_of_values {RT : Runtime} {PS : Raw.Parsers}
  (mgr : ContextManager) : Raw.ContextManager :=
  {| Raw.connection := connection mgr;
     Raw.contexts := map (fun kv => (Raw.JString (fst kv), Raw.to_raw (snd kv)))
                         (contexts mgr);
     Raw.contextPath := contextPath mgr |}.

(* ===================================================================== *)
(** ** More concrete worlds                                               *)
(* ===================================================================== *)

(** [fs] with the listing of every directory replaced by [files]. *)
Definition relist (fs : FileSystem) (files : list string) : FileSystem :=
  {| existsSync := existsSync fs;
     readdirSync := fun _ => Normal files;
     readFileSync := readFileSync fs |}.

Definition ENOTDIR : JsError :=
  {| errName := "Error"; errMessage := "ENOTDIR: not a directory, scandir" |}.

(** A file system where the configured path is a plain file. *)
Definition plain_file_fs : FileSystem :=
  {| existsSync := fun p => String.eqb p CONTEXTS_DIR;
     readdirSync := fun _ => Throw ENOTDIR;
     readFileSync := fun _ => Throw ENOENT |}.

Definition AgentFailure : JsError :=
  {| errName := "Error"; errMessage := "agent could not be built" |}.

(** Agents known by their name, key pairs by the text of their public key,
    transactions by the list of those who signed. *)
Definition test_libraries : @Libraries test_runtime :=
  {| Agent := string;
     Agent_getName := fun a => Normal a;
     new_SolanaDeFiAgent := fun _ => Normal "Solana DeFi Agent";
     new_NFTMarketAgent := fun _ => Normal "Solana NFT Market Agent";
     Keypair := string;
     Keypair_publicKey := fun k => (k : @PublicKey test_runtime);
     Transaction := list string;
     partialSign := fun tx k => Normal (tx ++ [k]) |}.

(** The same with agent constructors that raise. *)
Definition failing_libraries : @Libraries test_runtime :=
  {| Agent := string;
     Agent_getName := fun a => Normal a;
     new_SolanaDeFiAgent := fun _ => Throw AgentFailure;
     new_NFTMarketAgent := fun _ => Throw AgentFailure;
     Keypair := string;
     Keypair_publicKey := fun k => (k : @PublicKey test_runtime);
     Transaction := list string;
     partialSign := fun tx k => Normal (tx ++ [k]) |}.

Definition empty_wallets : @Wallet.State test_runtime test_libraries :=
  @Wallet.Build_State test_runtime test_libraries
    (@Wallet.new_WalletManager test_runtime test_libraries tt) [].

Definition empty_agents : @Agents.State test_runtime test_libraries :=
  @Agents.Build_State test_runtime test_libraries
    (@Agents.new_AgentManager test_runtime test_libraries tt test_manager) [].

Definition empty_agents_failing : @Agents.State test_runtime failing_libraries :=
  @Agents.Build_State test_runtime failing_libraries
    (@Agents.new_AgentManager test_runtime failing_libraries tt test_manager) [].

(** An upstream that knows one symbol. *)
Definition test_axios (symbol0 : string) : Completion string :=
  if String.eqb symbol0 "ETHUSDT" then Normal "3500.10"
  else Throw {| errName := "AxiosError";
                errMessage := "Request failed with status code 400" |}.

Definition empty_binance : Binance.State :=
  {| Binance.marketData := Map_empty; Binance.console := [] |}.

Definition btc_ticker : Binance.TickerMessage :=
  {| Binance.s := "BTCUSDT"; Binance.c := "64000.50"; Binance.E := 1700000000000%Z |}.

(* ===================================================================== *)
(** ** Concrete worlds with descriptors that are not of the interface     *)
(* ===================================================================== *)

(** A descriptor without a [capabilities] array. *)
Definition nocaps_record : Raw.JsValue Z :=
  Raw.JObject
    [("id", Raw.JString "orca-dex");
     ("name", Raw.JString "Orca");
     ("description", Raw.JString "A descriptor without capabilities");
     ("type", Raw.JString "dex");
     ("authRequired", Raw.JBool false)].

(** A descriptor whose type is not a member of [ContextType]. *)
Definition lending_record : Raw.JsValue Z :=
  Raw.JObject
    [("id", Raw.JString "aave-v3");
     ("name", Raw.JString "Aave");
     ("description", Raw.JString "A lending market");
     ("type", Raw.JString "lending");
     ("capabilities", Raw.JArray [Raw.JString "lending"; Raw.JString "borrowing"]);
     ("authRequired", Raw.JBool false)].

(** The parser of the test world, returning values. *)
Definition test_parse_any (content : string) : Completion (Raw.JsValue Z) :=
  if includes content "mirror" then Normal (Raw.to_raw jupiter_v2)
  else if includes content "jupiter" then Normal (Raw.to_raw jupiter)
  else if includes content "magiceden" then Normal (Raw.to_raw magiceden)
  else if includes content "lending" then Normal lending_record
  else if includes content "orca" then Normal nocaps_record
  else if String.eqb content "" then Normal Raw.JNull
  else Throw SyntaxError.

Definition test_parsers : Raw.Parsers :=
  {| Raw.Num := Z;
     Raw.Num_sameValueZero := Z.eqb;
     Raw.JSON_parse_any := test_parse_any;
     Raw.yaml_parse_any := test_parse_any |}.

(** A directory with a descriptor that has no capabilities. *)
Definition nocaps_fs : FileSystem :=
  dir_fs CONTEXTS_DIR
    [("jupiter-dex.yaml", "id: jupiter-dex-v4 name: Jupiter Aggregator type: dex");
     ("orca.json", "{ id: orca-dex, name: Orca, type: dex }")].

(** A directory with a descriptor of type lending. *)
Definition lending_fs : FileSystem :=
  dir_fs CONTEXTS_DIR
    [("jupiter-dex.yaml", "id: jupiter-dex-v4 name: Jupiter Aggregator type: dex");
     ("aave.yaml", "id: aave-v3 name: Aave type: lending")].

Definition raw_state (fs : FileSystem) : @Raw.State test_runtime test_parsers :=
  snd (@Raw.new_ContextManager test_runtime test_parsers fs tt CONTEXTS_DIR []).

Definition raw_manager (fs : FileSystem)
  : @Raw.ContextManager test_runtime test_parsers :=
  Raw.this (raw_state fs).

(** [res.json] that serialises every list. *)
Definition res_json_ok (l : list (Raw.JsValue Z)) : Completion unit := Normal tt.

Unset Implicit Arguments.

Section MapFacts.
Variable V : Type.
Implicit Types (m : JsMap V) (k : string) (v : V).

Lemma Map_get_set_same m k v : Map_get (Map_set m k v) k = Some v.
Proof.
  induction m as [|[k' v'] rest IH]; simpl.
  - now rewrite String.eqb_refl.
  - destruct (String.eqb k' k) eqn:E; simpl.
    + now rewrite String.eqb_refl.
    + now rewrite E.
Qed.

Lemma Map_get_set_other m k k0 v :
  k <> k0 -> Map_get (Map_set m k v) k0 = Map_get m k0.
Proof.
  intros Hne. induction m as [|[k' v'] rest IH]; simpl.
  - destruct (String.eqb k k0) eqn:E; [apply String.eqb_eq in E; tauto | easy].
  - destruct (String.eqb k' k) eqn:E; simpl.
    + apply String.eqb_eq in E; subst k'.
      destruct (String.eqb k k0) eqn:E0; [apply String.eqb_eq in E0; tauto | easy].
    + destruct (String.eqb k' k0); [easy | exact IH].
Qed.

Lemma Map_keys_set m k v x :
  In x (Map_keys (Map_set m k v)) <-> x = k \/ In x (Map_keys m).
Proof.
  unfold Map_keys. induction m as [|[k' v'] rest IH]; simpl.
  - intuition.
  - destruct (String.eqb k' k) eqn:E; simpl.
    + apply String.eqb_eq in E; subst k'. intuition.
    + rewrite IH. intuition.
Qed.

Lemma Map_keys_set_NoDup m k v :
  NoDup (Map_keys m) -> NoDup (Map_keys (Map_set m k v)).
Proof.
  unfold Map_keys. induction m as [|[k' v'] rest IH]; simpl; intros Hnd.
  - constructor; [easy | constructor].
  - inversion Hnd as [|? ? Hnotin Hrest]; subst.
    destruct (String.eqb k' k) eqn:E; simpl.
    + apply String.eqb_eq in E; subst k'. now constructor.
    + constructor; [| now apply IH].
      intros Hin. apply (Map_keys_set rest k v k') in Hin.
      destruct Hin as [-> | Hin]; [| tauto].
      now rewrite String.eqb_refl in E.
Qed.

Lemma Map_has_false m k : Map_has m k = false <-> ~ In k (Map_keys m).
Proof.
  unfold Map_has, Map_keys. induction m as [|[k' v'] rest IH]; simpl.
  - intuition.
  - destruct (String.eqb k' k) eqn:E; simpl.
    + apply String.eqb_eq in E. intuition discriminate.
    + apply String.eqb_neq in E. rewrite IH. intuition.
Qed.

Lemma Map_get_absent m k : ~ In k (Map_keys m) -> Map_get m k = None.
Proof.
  unfold Map_keys. induction m as [|[k' v'] rest IH]; simpl; intros Hnotin.
  - reflexivity.
  - destruct (String.eqb k' k) eqn:E.
    + apply String.eqb_eq in E. tauto.
    + apply IH. tauto.
Qed.

Lemma Map_get_present m k v :
  NoDup (Map_keys m) -> In (k, v) m -> Map_get m k = Some v.
Proof.
  unfold Map_keys. induction m as [|[k' v'] rest IH]; simpl; intros Hnd Hin.
  - contradiction.
  - inversion Hnd as [|? ? Hnotin Hrest]; subst.
    destruct Hin as [Heq | Hin].
    + injection Heq as -> ->. now rewrite String.eqb_refl.
    + destruct (String.eqb k' k) eqn:E.
      * apply String.eqb_eq in E; subst k'.
        exfalso. apply Hnotin. apply (in_map fst) in Hin. exact Hin.
      * now apply IH.
Qed.

End MapFacts.

Lemma Map_set_keyed (m : JsMap ContextDefinition) (d : ContextDefinition) :
  Forall (fun kv => fst kv = id (snd kv)) m ->
  Forall (fun kv => fst kv = id (snd kv)) (Map_set m (id d) d).
Proof.
  induction m as [|[k' v'] rest IH]; simpl; intros Hall.
  - constructor; [reflexivity | constructor].
  - inversion Hall as [|? ? Hhd Htl]; subst.
    destruct (String.eqb k' (id d)); constructor; auto.
Qed.

(* ===================================================================== *)
(** ** The loader                                                         *)
(* ===================================================================== *)

Section LoaderFacts.
Context {RT : Runtime}.

Lemma with_contexts_same (st : State) : with_contexts st (contexts (this st)) = st.
Proof. destruct st as [[c m p] l]. reflexivity. Qed.

Lemma with_contexts_twice (st : State) m m' :
  with_contexts (with_contexts st m) m' = with_contexts st m'.
Proof. reflexivity. Qed.

Lemma registry_ok_empty : registry_ok Map_empty.
Proof. split; constructor. Qed.

Lemma registry_ok_set m d : registry_ok m -> registry_ok (Map_set m (id d) d).
Proof.
  intros [Hnd Hkeyed]. split.
  - now apply Map_keys_set_NoDup.
  - now apply Map_set_keyed.
Qed.

Lemma registry_ok_set_all defs : forall m,
  registry_ok m -> registry_ok (set_all m defs).
Proof.
  unfold set_all. induction defs as [|d rest IH]; simpl; intros m Hok.
  - exact Hok.
  - apply IH. now apply registry_ok_set.
Qed.

Lemma set_all_app m defs1 defs2 :
  set_all m (defs1 ++ defs2) = set_all (set_all m defs1) defs2.
Proof. unfold set_all. apply fold_left_app. Qed.

(** A file without a recognized extension is passed over. *)
Lemma loadFile_unrecognized fs file st :
  recognized file = false -> loadFile fs file st = (Normal false, st).
Proof. intros H. unfold loadFile. now rewrite H. Qed.

(** A recognized file that parses to [d] is stored under [d.id]. *)
Lemma loadFile_loads fs file d st :
  recognized file = true ->
  loads_as fs (contextPath (this st)) file d ->
  loadFile fs file st =
  (Normal true, with_contexts st (Map_set (contexts (this st)) (id d) d)).
Proof.
  intros Hrec (content & Hread & Hparse).
  unfold loadFile. rewrite Hrec.
  unfold bind, get_this, call. simpl. rewrite Hread, Hparse. reflexivity.
Qed.

(** A recognized file that cannot be loaded raises, and stores nothing. *)
Lemma loadFile_fails fs file e st :
  recognized file = true ->
  fails_with fs (contextPath (this st)) file e ->
  loadFile fs file st = (Throw e, st).
Proof.
  intros Hrec Hfail. unfold loadFile. rewrite Hrec.
  unfold bind, get_this, call. simpl.
  destruct Hfail as [Hread | (content & Hread & [Hparse | [Hparse ->]])].
  - now rewrite Hread.
  - now rewrite Hread, Hparse.
  - now rewrite Hread, Hparse.
Qed.

(** Whatever the file, [loadFile] leaves the state as it was or stores one
    definition under its own id. *)
Lemma loadFile_step fs file st :
  exists r defs,
    loadFile fs file st = (r, with_contexts st (set_all (contexts (this st)) defs)).
Proof.
  unfold loadFile. destruct (recognized file).
  - unfold bind, get_this, call. simpl.
    destruct (readFileSync fs _) as [content | e].
    + destruct (parse_file file content) as [[| d] | e]; simpl.
      * exists (Throw (TypeError_null "id")), []. simpl. now rewrite with_contexts_same.
      * exists (Normal true), [d]. reflexivity.
      * exists (Throw e), []. simpl. now rewrite with_contexts_same.
    + exists (Throw e), []. simpl. now rewrite with_contexts_same.
  - exists (Normal false), []. simpl. now rewrite with_contexts_same.
Qed.

Lemma loadFiles_step fs files : forall n st,
  exists r defs,
    loadFiles fs files n st =
    (r, with_contexts st (set_all (contexts (this st)) defs)).
Proof.
  induction files as [|file rest IH]; intros n st; simpl.
  - exists (Normal n), []. unfold ret. simpl. now rewrite with_contexts_same.
  - unfold bind.
    destruct (loadFile_step fs file st) as (r1 & defs1 & H1). rewrite H1.
    destruct r1 as [counted | e].
    + destruct (IH (if counted then S n else n)
                   (with_contexts st (set_all (contexts (this st)) defs1)))
        as (r2 & defs2 & H2).
      rewrite H2. exists r2, (defs1 ++ defs2).
      simpl. now rewrite set_all_app.
    + exists (Throw e), defs1. reflexivity.
Qed.

(** When every recognized file of the listing loads, the loop stores their
    definitions in the order of the listing and counts them. *)
Lemma loadFiles_all_load fs files : forall defs n st,
  Forall2 (loads_as fs (contextPath (this st))) (filter recognized files) defs ->
  loadFiles fs files n st =
  (Normal (n + List.length defs),
   with_contexts st (set_all (contexts (this st)) defs)).
Proof.
  induction files as [|file rest IH]; intros defs n st Hall; simpl in *.
  - inversion Hall; subst. unfold ret. simpl.
    now rewrite Nat.add_0_r, with_contexts_same.
  - unfold bind. destruct (recognized file) eqn:Hrec.
    + inversion Hall as [|? d ? defs' Hd Hrest]; subst.
      rewrite (loadFile_loads fs file d st Hrec Hd).
      rewrite (IH defs' (S n) (with_contexts st (Map_set (contexts (this st)) (id d) d)) Hrest).
      simpl. now rewrite Nat.add_succ_r.
    + rewrite (loadFile_unrecognized fs file st Hrec).
      rewrite (IH defs n st Hall). reflexivity.
Qed.

(** When the files before [bad] load and [bad] does not, the loop raises at
    [bad] with the definitions of the files before it stored. *)
Lemma loadFiles_stops fs pre bad post e : forall defs n st,
  Forall2 (loads_as fs (contextPath (this st))) (filter recognized pre) defs ->
  recognized bad = true ->
  fails_with fs (contextPath (this st)) bad e ->
  loadFiles fs (pre ++ bad :: post) n st =
  (Throw e, with_contexts st (set_all (contexts (this st)) defs)).
Proof.
  induction pre as [|file rest IH]; intros defs n st Hall Hrec Hfail; simpl in *.
  - inversion Hall; subst. unfold bind.
    rewrite (loadFile_fails fs bad e st Hrec Hfail). simpl.
    now rewrite with_contexts_same.
  - unfold bind. destruct (recognized file) eqn:Hrf.
    + inversion Hall as [|? d ? defs' Hd Hrest]; subst.
      rewrite (loadFile_loads fs file d st Hrf Hd).
      rewrite (IH defs' (S n) (with_contexts st (Map_set (contexts (this st)) (id d) d)) Hrest Hrec Hfail). reflexivity.
    + rewrite (loadFile_unrecognized fs file st Hrf).
      now rewrite (IH defs n st Hall Hrec Hfail).
Qed.

(** [loadContexts] always returns: it writes one log record and stores some
    definitions, each under its own id. *)
Lemma loadContexts_step fs st :
  exists defs l,
    loadContexts fs st =
    (Normal tt,
     {| this := this (with_contexts st (set_all (contexts (this st)) defs));
        logs := logs st ++ [l] |}).
Proof.
  unfold loadContexts, try_catch, bind, get_this. simpl.
  destruct (existsSync fs (contextPath (this st))); simpl.
  - unfold call. destruct (readdirSync fs _) as [files | e]; simpl.
    + destruct (loadFiles_step fs files 0 st) as (r & defs & H). rewrite H.
      destruct r as [n | e]; simpl; exists defs; eexists; reflexivity.
    + exists []; eexists. simpl. destruct st as [[c m p] l]; reflexivity.
  - exists []; eexists. simpl. destruct st as [[c m p] l]; reflexivity.
Qed.

(** [registerContext] always returns: either the key is built, the definition
    stored and the key returned, or building it raises, nothing is stored and
    [null] is returned. *)
Lemma registerContext_step contextDef authority st :
  (exists k,
     PublicKey_new NEW_CONTEXT_ID = Normal k /\
     registerContext contextDef authority st =
     (Normal (Some k),
      {| this := this (with_contexts st
                         (Map_set (contexts (this st)) (id contextDef) contextDef));
         logs := logs st ++
           [{| level := LInfo;
               message := "Registered new context: " ++ name contextDef ++
                          " (" ++ ContextType_value (type contextDef) ++
                          ") with ID " ++ PublicKey_toString k;
               cause := None |}] |})) \/
  (exists e,
     PublicKey_new NEW_CONTEXT_ID = Throw e /\
     registerContext contextDef authority st =
     (Normal None,
      {| this := this st;
         logs := logs st ++
           [{| level := LError;
               message := "Error registering context " ++ name contextDef ++ ":";
               cause := Some e |}] |})).
Proof.
  unfold registerContext, try_catch, bind, call.
  destruct (PublicKey_new NEW_CONTEXT_ID) as [k | e]; simpl.
  - left. exists k. split; reflexivity.
  - right. exists e. split; reflexivity.
Qed.

(** The invariant of the registry holds in every reachable state. *)
Lemma reachable_registry_ok st :
  reachable st -> registry_ok (contexts (this st)).
Proof.
  induction 1 as [fs conn path logs0 | st d a Hreach IH].
  - unfold new_ContextManager.
    destruct (loadContexts_step fs
      {| this := {| connection := conn; contexts := Map_empty;
                    contextPath := path |};
         logs := logs0 |}) as (defs & l & H).
    rewrite H. simpl. apply registry_ok_set_all, registry_ok_empty.
  - destruct (registerContext_step d a st) as [(k & _ & H) | (e & _ & H)];
      rewrite H; simpl.
    + now apply registry_ok_set.
    + exact IH.
Qed.

End LoaderFacts.

(* ===================================================================== *)
(** ** Lookup, registration and the permission stub                       *)
(* ===================================================================== *)

Section RegistryClaims.
Context {RT : Runtime}.

Lemma ids_are_keys (m : JsMap ContextDefinition) :
  Forall (fun kv => fst kv = id (snd kv)) m ->
  map id (Map_values m) = Map_keys m.
Proof.
  unfold Map_values, Map_keys. induction 1 as [|[k v] rest Hhd _ IH]; simpl.
  - reflexivity.
  - simpl in Hhd. now rewrite IH, Hhd.
Qed.

Lemma held_record_is_found (mgr : ContextManager) (r : ContextDefinition) :
  registry_ok (contexts mgr) ->
  In r (getAllContexts mgr) -> getContext mgr (id r) = Some r.
Proof.
  intros [Hnd Hkeyed] Hin. unfold getAllContexts, Map_values in Hin.
  apply in_map_iff in Hin. destruct Hin as ([k v] & Hv & Hin). simpl in Hv. subst v.
  pose proof (proj1 (Forall_forall _ _) Hkeyed _ Hin) as Hk. simpl in Hk. subst k.
  unfold getContext. now rewrite (Map_get_present _ _ _ _ Hnd Hin).
Qed.

(** C6: for an id that is not a key of the registry, [getContext] returns
    [null] (here [None]); the method is a total function of the manager and
    the id, it has no path that raises. *)
Theorem getContext_absent_is_null (mgr : ContextManager) (id0 : string) :
  Map_has (contexts mgr) id0 = false -> getContext mgr id0 = None.
Proof.
  intros Habsent. apply Map_has_false in Habsent.
  unfold getContext. now rewrite (Map_get_absent _ _ _ Habsent).
Qed.

(** C9: [checkPermission] returns [true] for every agent and every context
    id, in every state, and changes nothing. *)
Theorem checkPermission_always_true
  (agentId : PublicKey) (contextId : string) (st : State) :
  checkPermission agentId contextId st = (Normal true, st).
Proof. reflexivity. Qed.

(** C7: when the directory does not exist the constructor returns normally,
    the registry it builds is empty, and the one thing logged is the warning
    that the path does not exist. *)
Theorem missing_directory_gives_empty_registry
  (fs : FileSystem) (conn : Connection) (path : string)
  (logs0 : list LogRecord) :
  existsSync fs path = false ->
  new_ContextManager fs conn path logs0 =
    (Normal tt,
     {| this := {| connection := conn; contexts := Map_empty;
                   contextPath := path |};
        logs := logs0 ++
          [{| level := LWarn;
              message := "Context path " ++ path ++ " does not exist";
              cause := None |}] |}) /\
  getAllContexts (this (snd (new_ContextManager fs conn path logs0))) = [].
Proof.
  intros Hmissing.
  assert (Hrun : new_ContextManager fs conn path logs0 =
    (Normal tt,
     {| this := {| connection := conn; contexts := Map_empty;
                   contextPath := path |};
        logs := logs0 ++
          [{| level := LWarn;
              message := "Context path " ++ path ++ " does not exist";
              cause := None |}] |})).
  { unfold new_ContextManager, loadContexts, try_catch, bind, get_this. simpl.
    rewrite Hmissing. reflexivity. }
  split; [exact Hrun | now rewrite Hrun].
Qed.

(** C8: [registerContext] never ends in a raised error. Whatever the record,
    the authority and the state, it returns a value; when building the key
    raises [e], the error is caught, one error record carrying [e] is logged,
    the registry is left as it was, and the value returned is [null]. *)
Theorem registerContext_never_raises
  (contextDef : ContextDefinition) (authority : PublicKey) (st : State) :
  exists result,
    fst (registerContext contextDef authority st) = Normal result /\
    (forall e, PublicKey_new NEW_CONTEXT_ID = Throw e ->
       result = None /\
       snd (registerContext contextDef authority st) =
       {| this := this st;
          logs := logs st ++
            [{| level := LError;
                message := "Error registering context " ++
                           name contextDef ++ ":";
                cause := Some e |}] |}) /\
    (forall k, PublicKey_new NEW_CONTEXT_ID = Normal k -> result = Some k).
Proof.
  destruct (registerContext_step contextDef authority st)
    as [(k & Hk & H) | (e & He & H)]; rewrite H; simpl.
  - exists (Some k). split; [reflexivity | split].
    + intros e He. congruence.
    + intros k' Hk'. congruence.
  - exists None. split; [reflexivity | split].
    + intros e' He'. split; [reflexivity | congruence].
    + intros k Hk. congruence.
Qed.

(** C10: a registration that succeeds returns the key built from the fixed
    text G6xptnrkj3Z3JegB3EqJPGqnVBKGLQXTqpEL9kHpMZN5, whatever the record,
    the authority and the state; two successful registrations return equal
    keys. *)
Theorem registerContext_returns_fixed_key
  (d1 d2 : ContextDefinition) (a1 a2 : PublicKey) (st1 st2 : State)
  (k1 k2 : PublicKey) :
  fst (registerContext d1 a1 st1) = Normal (Some k1) ->
  fst (registerContext d2 a2 st2) = Normal (Some k2) ->
  PublicKey_new "G6xptnrkj3Z3JegB3EqJPGqnVBKGLQXTqpEL9kHpMZN5" = Normal k1 /\
  k1 = k2.
Proof.
  intros H1 H2.
  destruct (registerContext_step d1 a1 st1) as [(k & Hk & H) | (e & He & H)];
    rewrite H in H1; simpl in H1; [| discriminate].
  destruct (registerContext_step d2 a2 st2) as [(k' & Hk' & H') | (e & He & H')];
    rewrite H' in H2; simpl in H2; [| discriminate].
  injection H1 as <-. injection H2 as <-.
  split; [exact Hk | congruence].
Qed.

(** C2: in every reachable state the registry holds at most one record per
    id (the ids of the records held are pairwise distinct, and each record
    held is the one [getContext] returns for its id); and right after a
    registration of [r] that succeeds, [getContext(r.id)] returns [r],
    whatever was stored under that id before. *)
Theorem register_then_lookup (st : State) :
  reachable st ->
  NoDup (map id (getAllContexts (this st))) /\
  (forall r, In r (getAllContexts (this st)) ->
     getContext (this st) (id r) = Some r) /\
  (forall r authority k,
     fst (registerContext r authority st) = Normal (Some k) ->
     getContext (this (snd (registerContext r authority st))) (id r) = Some r).
Proof.
  intros Hreach. pose proof (reachable_registry_ok st Hreach) as Hok.
  split; [| split].
  - destruct Hok as [Hnd Hkeyed]. unfold getAllContexts.
    now rewrite ids_are_keys.
  - intros r Hin. now apply held_record_is_found.
  - intros r authority k Hsucc.
    destruct (registerContext_step r authority st)
      as [(k' & _ & H) | (e & _ & H)]; rewrite H in *; simpl in *.
    + unfold getContext. simpl. now rewrite Map_get_set_same.
    + discriminate.
Qed.

End RegistryClaims.

(* ===================================================================== *)
(** ** Initialization                                                     *)
(* ===================================================================== *)

Section LoaderClaims.
Context {RT : Runtime}.

Lemma Map_set_fresh (m : JsMap ContextDefinition) k v :
  ~ In k (Map_keys m) -> Map_set m k v = m ++ [(k, v)].
Proof.
  unfold Map_keys. induction m as [|[k' v'] rest IH]; simpl; intros Hfresh.
  - reflexivity.
  - destruct (String.eqb k' k) eqn:E.
    + apply String.eqb_eq in E. tauto.
    + rewrite IH; [reflexivity | tauto].
Qed.

Lemma set_all_keys defs : forall (m : JsMap ContextDefinition) x,
  In x (Map_keys (set_all m defs)) <-> In x (Map_keys m) \/ In x (map id defs).
Proof.
  unfold set_all. induction defs as [|d rest IH]; simpl; intros m x.
  - tauto.
  - rewrite IH, Map_keys_set. intuition.
Qed.

(** Definitions with pairwise distinct ids are stored one after the other. *)
Lemma set_all_distinct defs : forall (m : JsMap ContextDefinition),
  NoDup (Map_keys m ++ map id defs) ->
  set_all m defs = m ++ map (fun d => (id d, d)) defs.
Proof.
  induction defs as [|d rest IH]; simpl; intros m Hnd.
  - now rewrite app_nil_r.
  - pose proof (NoDup_remove_2 _ _ _ Hnd) as Hfresh.
    unfold set_all in *. simpl.
    rewrite Map_set_fresh by (intros Hin; apply Hfresh, in_or_app; now left).
    rewrite IH.
    + now rewrite <- app_assoc.
    + unfold Map_keys in *. rewrite map_app. simpl.
      now rewrite <- app_assoc.
Qed.

(** The registry built from [defs] holds one record per distinct id. *)
Lemma set_all_size defs :
  List.length (Map_values (set_all Map_empty defs)) =
  List.length (nodup string_dec (map id defs)).
Proof.
  transitivity (List.length (Map_keys (set_all Map_empty defs))).
  - unfold Map_values, Map_keys. now rewrite !length_map.
  - apply Permutation_length, NoDup_Permutation.
    + apply (registry_ok_set_all defs Map_empty registry_ok_empty).
    + apply NoDup_nodup.
    + intros x. rewrite set_all_keys, nodup_In. simpl. tauto.
Qed.

(** C4, as the code has it: when the directory exists and each file with a
    recognized extension reads and parses to a definition, the constructor
    returns normally, the files without a recognized extension play no part,
    the count logged is the number N of recognized files, and the registry
    holds the N definitions written in the order of the listing, a later
    definition replacing an earlier one of the same id: one record per
    distinct id, so N records in the order of the listing when the N ids are
    pairwise distinct. *)
Theorem load_counts_recognized_files
  (fs : FileSystem) (conn : Connection) (path : string)
  (logs0 : list LogRecord) (files : list string)
  (defs : list ContextDefinition) :
  existsSync fs path = true ->
  readdirSync fs path = Normal files ->
  Forall2 (loads_as fs path) (filter recognized files) defs ->
  let N := List.length (filter recognized files) in
  let result := new_ContextManager fs conn path logs0 in
  fst result = Normal tt /\
  logs (snd result) = logs0 ++
    [{| level := LInfo;
        message := "Loaded " ++ Number_toString N ++
                   " context definitions from " ++ path;
        cause := None |}] /\
  contexts (this (snd result)) = set_all Map_empty defs /\
  List.length (getAllContexts (this (snd result))) =
    List.length (nodup string_dec (map id defs)) /\
  (NoDup (map id defs) ->
     getAllContexts (this (snd result)) = defs /\
     List.length (getAllContexts (this (snd result))) = N).
Proof.
  intros Hexists Hlist Hall N result.
  assert (HN : List.length defs = N).
  { symmetry. exact (Forall2_length Hall). }
  assert (Hrun : result =
    (Normal tt,
     {| this := {| connection := conn; contexts := set_all Map_empty defs;
                   contextPath := path |};
        logs := logs0 ++
          [{| level := LInfo;
              message := "Loaded " ++ Number_toString N ++
                         " context definitions from " ++ path;
              cause := None |}] |})).
  { pose proof (loadFiles_all_load fs files defs 0
      {| this := {| connection := conn; contexts := Map_empty;
                    contextPath := path |};
         logs := logs0 |} Hall) as Hloop.
    unfold result, new_ContextManager, loadContexts, try_catch, bind, get_this, call.
    simpl. rewrite Hexists, Hlist. simpl.
    rewrite Hloop. simpl. rewrite HN. reflexivity. }
  rewrite Hrun. simpl. unfold getAllContexts. simpl.
  repeat split.
  - apply set_all_size.
  - rewrite set_all_distinct by (simpl; assumption).
    unfold Map_values. simpl. rewrite map_map. simpl. apply map_id.
  - rewrite set_all_distinct by (simpl; assumption).
    unfold Map_values. simpl. rewrite map_map. simpl. now rewrite map_id.
Qed.

(** C3, as the code has it: when a recognized file of the listing cannot be
    loaded (reading it raises, its parser raises, or it parses to [null]) and
    the recognized files listed before it load, the constructor still returns
    normally; the error is logged once and loading ends there: the registry
    holds the definitions of the files listed before the failed one and
    nothing else, so no record of the failed file and none of the files
    listed after it; no count is logged. *)
Theorem load_stops_at_first_failure
  (fs : FileSystem) (conn : Connection) (path : string)
  (logs0 : list LogRecord) (pre post : list string) (bad : string)
  (defs : list ContextDefinition) (e : JsError) :
  existsSync fs path = true ->
  readdirSync fs path = Normal (pre ++ bad :: post) ->
  Forall2 (loads_as fs path) (filter recognized pre) defs ->
  recognized bad = true ->
  fails_with fs path bad e ->
  new_ContextManager fs conn path logs0 =
    (Normal tt,
     {| this := {| connection := conn; contexts := set_all Map_empty defs;
                   contextPath := path |};
        logs := logs0 ++
          [{| level := LError;
              message := "Failed to load context definitions:";
              cause := Some e |}] |}).
Proof.
  intros Hexists Hlist Hall Hrec Hfail.
  pose proof (loadFiles_stops fs pre bad post e defs 0
    {| this := {| connection := conn; contexts := Map_empty;
                  contextPath := path |};
       logs := logs0 |} Hall Hrec Hfail) as Hloop.
  unfold new_ContextManager, loadContexts, try_catch, bind, get_this, call.
  simpl. rewrite Hexists, Hlist. simpl.
  rewrite Hloop. reflexivity.
Qed.

End LoaderClaims.

(* ===================================================================== *)
(** ** Queries                                                            *)
(* ===================================================================== *)

Lemma ContextType_strict_eq_spec (a b : ContextType) :
  ContextType_strict_eq a b = true <-> a = b.
Proof.
  split.
  - destruct a, b; intros H; try reflexivity; discriminate H.
  - intros ->. unfold ContextType_strict_eq. apply String.eqb_refl.
Qed.

Lemma ContextType_all_complete (t : ContextType) : In t ContextType_all.
Proof. destruct t; simpl; tauto. Qed.

Lemma ContextType_all_NoDup : NoDup ContextType_all.
Proof.
  unfold ContextType_all.
  repeat (constructor; [simpl; intuition discriminate |]).
  constructor.
Qed.

Section Classification.
Variables (A : Type) (key : A -> ContextType).

Lemma of_type_head (x : A) (l : list A) (t : ContextType) :
  of_type key (x :: l) t =
  if ContextType_strict_eq (key x) t then x :: of_type key l t
  else of_type key l t.
Proof. reflexivity. Qed.

(** Adding [x] in front of the list adds it in front of the selection of its
    own type and leaves the other selections alone. *)
Lemma of_type_cons (x : A) (l : list A) : forall ts,
  NoDup ts ->
  (In (key x) ts ->
     Permutation (flat_map (of_type key (x :: l)) ts)
                 (x :: flat_map (of_type key l) ts)) /\
  (~ In (key x) ts ->
     flat_map (of_type key (x :: l)) ts = flat_map (of_type key l) ts).
Proof.
  induction ts as [|t ts IH]; intros Hnd.
  - split; [intros [] | reflexivity].
  - inversion Hnd as [|? ? Hnotin Hnd']; subst.
    destruct (IH Hnd') as [IHin IHout].
    cbn [flat_map]. rewrite of_type_head.
    destruct (ContextType_strict_eq (key x) t) eqn:E.
    + apply ContextType_strict_eq_spec in E. subst t.
      split; [intros _ | intros Hout; exfalso; apply Hout; now left].
      simpl. now rewrite (IHout Hnotin).
    + assert (Hne : key x <> t).
      { intros Heq. rewrite Heq in E. unfold ContextType_strict_eq in E.
        now rewrite String.eqb_refl in E. }
      split.
      * intros [Heq | Hin]; [congruence |].
        transitivity (of_type key l t ++ x :: flat_map (of_type key l) ts).
        -- apply Permutation_app_head, IHin, Hin.
        -- apply Permutation_sym, Permutation_middle.
      * intros Hout. rewrite IHout; [reflexivity |].
        intros Hin. apply Hout. now right.
Qed.

(** The selections for the members of the enum, one after the other, hold
    the elements of the list, each as many times as the list does. *)
Lemma of_type_partition (l : list A) :
  Permutation (flat_map (of_type key l) ContextType_all) l.
Proof.
  induction l as [|x l IH].
  - unfold of_type. simpl. constructor.
  - destruct (of_type_cons x l ContextType_all ContextType_all_NoDup) as [Hin _].
    rewrite (Hin (ContextType_all_complete (key x))).
    now constructor.
Qed.

End Classification.

Section QueryClaims.
Context {RT : Runtime}.

Lemma filter_all (A : Type) (l : list A) : filter (fun _ => true) l = l.
Proof. induction l as [|x l IH]; simpl; [| rewrite IH]; reflexivity. Qed.

(** The loop of [findContextsByCapabilities] appends to [matches], in order,
    the records that pass the test of [every]. *)
Lemma collectMatches_filter (caps : list string) :
  forall values matches,
    collectMatches values caps matches =
    matches ++ filter (fun c => forallb (hasCapability c) caps) values.
Proof.
  induction values as [|c rest IH]; intros matches; simpl.
  - now rewrite app_nil_r.
  - destruct (forallb (hasCapability c) caps).
    + rewrite IH, <- app_assoc. reflexivity.
    + apply IH.
Qed.

Lemma hasCapability_spec (c : ContextDefinition) (cap : string) :
  hasCapability c cap = true <->
  exists contextCap,
    In contextCap (capabilities c) /\ same_ignoring_case contextCap cap.
Proof.
  unfold hasCapability, same_ignoring_case. rewrite existsb_exists.
  split; intros (x & Hin & Heq); exists x; split; trivial;
    now apply String.eqb_eq.
Qed.

Lemma every_hasCapability_spec (c : ContextDefinition) (caps : list string) :
  forallb (hasCapability c) caps = true <-> has_all c caps.
Proof.
  unfold has_all. rewrite forallb_forall.
  split; intros H cap Hin; apply hasCapability_spec, H, Hin.
Qed.

End QueryClaims.

(* ===================================================================== *)
(** ** The scenario of the test-suite                                     *)
(* ===================================================================== *)

Example recognized_extensions :
  map recognized ["a.yaml"; "b.yml"; "c.json"; ".json"; "test.txt"; "json"; "yaml.bak"] =
  [true; true; true; true; false; false; false].
Proof. reflexivity. Qed.

Example test_loads_two_descriptors :
  map id (getAllContexts test_manager) = ["jupiter-dex-v4"; "magiceden-v2"] /\
  map message (logs test_state) =
    ["Loaded 2 context definitions from /path/to/contexts"].
Proof. split; reflexivity. Qed.

Example test_getContext :
  @getContext test_runtime test_manager "jupiter-dex-v4" = Some jupiter /\
  @getContext test_runtime test_manager "non-existent" = None.
Proof. split; reflexivity. Qed.

Example test_getContextsByType :
  @getContextsByType test_runtime test_manager DEX = [jupiter] /\
  @getContextsByType test_runtime test_manager NFT_MARKETPLACE = [magiceden] /\
  @getContextsByType test_runtime test_manager ORACLE = [].
Proof. repeat split; reflexivity. Qed.

Example test_findContextsByCapabilities :
  @findContextsByCapabilities test_runtime test_manager ["token_swaps"] = [jupiter] /\
  @findContextsByCapabilities test_runtime test_manager ["non_existent_capability"] = [] /\
  @findContextsByCapabilities test_runtime test_manager ["token_swaps"; "nft_listing"] = [].
Proof. repeat split; reflexivity. Qed.

Example test_registerContext :
  let run := @registerContext test_runtime test_context "authority" test_state in
  fst run = Normal (Some NEW_CONTEXT_ID) /\
  @getContext test_runtime (this (snd run)) "test-context" = Some test_context.
Proof. split; reflexivity. Qed.

(** With a constructor of keys that raises, the error is caught. *)
Example rejected_key_is_caught :
  let run := @registerContext rejecting_runtime test_context "authority"
               rejecting_state in
  fst run = Normal None /\
  @getAllContexts rejecting_runtime (this (snd run)) = [] /\
  map level (logs (snd run)) = [LError].
Proof. repeat split; reflexivity. Qed.

(** Overwriting keeps the place of the key in the order of the registry. *)
Example overwrite_keeps_position :
  map name
    (@getAllContexts test_runtime
       (this (snd (@registerContext test_runtime jupiter_v2 "authority"
                     test_state)))) =
  ["Jupiter Aggregator (mirror)"; "Magic Eden NFT Marketplace"].
Proof. reflexivity. Qed.

(* ===================================================================== *)
(** ** The claims at concrete inputs                                      *)
(* ===================================================================== *)

(** C2 on the state of the test-suite, registering over the id of a record
    already held. *)
Lemma register_then_lookup_witness :
  @reachable test_runtime test_state /\
  NoDup (map id (@getAllContexts test_runtime (this test_state))) /\
  @getContext test_runtime
    (this (snd (@registerContext test_runtime jupiter_v2 "authority" test_state)))
    "jupiter-dex-v4" = Some jupiter_v2.
Proof.
  assert (Hreach : @reachable test_runtime test_state).
  { unfold test_state. apply (@reach_new test_runtime). }
  destruct (@register_then_lookup test_runtime test_state Hreach)
    as (Hnodup & _ & Hlookup).
  split; [exact Hreach | split; [exact Hnodup |]].
  apply (Hlookup jupiter_v2 "authority" NEW_CONTEXT_ID). reflexivity.
Defined.

(** C6 on the manager of the test-suite. *)
Lemma getContext_absent_is_null_witness :
  Map_has (@contexts test_runtime test_manager) "nonexistent-id" = false /\
  @getContext test_runtime test_manager "nonexistent-id" = None.
Proof.
  split.
  - reflexivity.
  - apply (@getContext_absent_is_null test_runtime test_manager "nonexistent-id").
    reflexivity.
Defined.

(** C7 on a path that the file system of the test-suite does not have. *)
Lemma missing_directory_gives_empty_registry_witness :
  existsSync test_fs "/nowhere" = false /\
  fst (@new_ContextManager test_runtime test_fs tt "/nowhere" []) = Normal tt /\
  @getAllContexts test_runtime
    (this (snd (@new_ContextManager test_runtime test_fs tt "/nowhere" []))) = [].
Proof.
  destruct (@missing_directory_gives_empty_registry test_runtime test_fs tt
              "/nowhere" [] eq_refl) as [Hrun Hempty].
  split; [reflexivity | split; [| exact Hempty]].
  rewrite Hrun. reflexivity.
Defined.

(** C10 on two registrations of different records by different
    authorities. *)
Lemma registerContext_returns_fixed_key_witness :
  fst (@registerContext test_runtime test_context "authority" test_state) =
    Normal (Some NEW_CONTEXT_ID) /\
  fst (@registerContext test_runtime jupiter_v2 "someone else"
         (snd (@registerContext test_runtime test_context "authority" test_state))) =
    Normal (Some NEW_CONTEXT_ID) /\
  @PublicKey_new test_runtime "G6xptnrkj3Z3JegB3EqJPGqnVBKGLQXTqpEL9kHpMZN5" =
    Normal NEW_CONTEXT_ID /\
  NEW_CONTEXT_ID = NEW_CONTEXT_ID.
Proof.
  split; [reflexivity | split; [reflexivity |]].
  apply (@registerContext_returns_fixed_key test_runtime
           test_context jupiter_v2 "authority" "someone else" test_state
           (snd (@registerContext test_runtime test_context "authority" test_state))
           NEW_CONTEXT_ID NEW_CONTEXT_ID);
    reflexivity.
Defined.

(** C3 as stated does not hold: a descriptor whose parser raises ends the
    loading, and the well-formed descriptor listed after it is not in the
    registry (listing broken.json, jupiter-dex.yaml). *)
Lemma later_files_not_loaded_after_parse_failure :
  ~ (forall (RT : Runtime) (fs : FileSystem) (conn : Connection)
       (path : string) (logs0 : list LogRecord) (files : list string)
       (bad good : string) (content : string) (e : JsError)
       (d : ContextDefinition),
       existsSync fs path = true ->
       readdirSync fs path = Normal files ->
       In bad files -> recognized bad = true ->
       readFileSync fs (path_join path bad) = Normal content ->
       parse_file bad content = Throw e ->
       In good files -> recognized good = true ->
       loads_as fs path good d ->
       Map_has (contexts (this (snd (new_ContextManager fs conn path logs0))))
               (id d) = true).
Proof.
  intros Hclaim.
  specialize (Hclaim test_runtime broken_first_fs
                (tt : @Connection test_runtime) CONTEXTS_DIR []
                ["broken.json"; "jupiter-dex.yaml"]
                "broken.json" "jupiter-dex.yaml" "{ " SyntaxError jupiter
                eq_refl eq_refl).
  assert (Hgood : @loads_as test_runtime broken_first_fs CONTEXTS_DIR
                    "jupiter-dex.yaml" jupiter).
  { exists "id: jupiter-dex-v4 name: Jupiter Aggregator type: dex".
    split; reflexivity. }
  specialize (Hclaim (or_introl eq_refl) eq_refl eq_refl eq_refl
                (or_intror (or_introl eq_refl)) eq_refl Hgood).
  vm_compute in Hclaim. discriminate Hclaim.
Qed.

(** C4 as stated does not hold: two recognized, parseable descriptors of one
    id leave one record in the registry, not two (listing jupiter-dex.yaml,
    jupiter-mirror.yaml, notes.txt). *)
Lemma same_id_files_leave_one_record :
  ~ (forall (RT : Runtime) (fs : FileSystem) (conn : Connection)
       (path : string) (logs0 : list LogRecord) (files : list string)
       (defs : list ContextDefinition),
       existsSync fs path = true ->
       readdirSync fs path = Normal files ->
       Forall2 (loads_as fs path) (filter recognized files) defs ->
       List.length
         (getAllContexts (this (snd (new_ContextManager fs conn path logs0)))) =
       List.length (filter recognized files)).
Proof.
  intros Hclaim.
  specialize (Hclaim test_runtime same_id_fs
                (tt : @Connection test_runtime) CONTEXTS_DIR []
                ["jupiter-dex.yaml"; "jupiter-mirror.yaml"; "notes.txt"]
                [jupiter; jupiter_v2] eq_refl eq_refl).
  assert (Hall : Forall2 (@loads_as test_runtime same_id_fs CONTEXTS_DIR)
                   (filter recognized
                      ["jupiter-dex.yaml"; "jupiter-mirror.yaml"; "notes.txt"])
                   [jupiter; jupiter_v2]).
  { change (filter recognized
              ["jupiter-dex.yaml"; "jupiter-mirror.yaml"; "notes.txt"])
      with ["jupiter-dex.yaml"; "jupiter-mirror.yaml"].
    repeat constructor.
    - exists "id: jupiter-dex-v4 name: Jupiter Aggregator type: dex".
      split; reflexivity.
    - exists "id: jupiter-dex-v4 name: Jupiter Aggregator (mirror)".
      split; reflexivity. }
  specialize (Hclaim Hall). vm_compute in Hclaim. discriminate Hclaim.
Qed.

(** C4, as the code has it, on the directory of the test-suite: two
    recognized files, one that is not. *)
Lemma load_counts_recognized_files_witness :
  let result := @new_ContextManager test_runtime test_fs tt CONTEXTS_DIR [] in
  fst result = Normal tt /\
  map message (logs (snd result)) =
    ["Loaded 2 context definitions from /path/to/contexts"] /\
  @getAllContexts test_runtime (this (snd result)) = [jupiter; magiceden] /\
  List.length (@getAllContexts test_runtime (this (snd result))) = 2.
Proof.
  assert (Hall : Forall2 (@loads_as test_runtime test_fs CONTEXTS_DIR)
                   (filter recognized
                      ["jupiter-dex.yaml"; "magiceden-marketplace.yaml"; "test.txt"])
                   [jupiter; magiceden]).
  { change (filter recognized
              ["jupiter-dex.yaml"; "magiceden-marketplace.yaml"; "test.txt"])
      with ["jupiter-dex.yaml"; "magiceden-marketplace.yaml"].
    repeat constructor.
    - exists "id: jupiter-dex-v4 name: Jupiter Aggregator type: dex".
      split; reflexivity.
    - exists "id: magiceden-v2 name: Magic Eden type: nft_marketplace".
      split; reflexivity. }
  destruct (@load_counts_recognized_files test_runtime test_fs tt CONTEXTS_DIR []
              ["jupiter-dex.yaml"; "magiceden-marketplace.yaml"; "test.txt"]
              [jupiter; magiceden] eq_refl eq_refl Hall)
    as (Hret & Hlogs & _ & _ & Hdistinct).
  assert (Hnodup : NoDup (map id [jupiter; magiceden])).
  { simpl. repeat constructor; simpl; intuition discriminate. }
  destruct (Hdistinct Hnodup) as [Hheld Hsize].
  intros result. split; [exact Hret | split; [| split]].
  - unfold result. rewrite Hlogs. reflexivity.
  - exact Hheld.
  - exact Hsize.
Defined.

(** C3, as the code has it, on a directory whose third file is cut short:
    the first descriptor is held, the last is not. *)
Lemma load_stops_at_first_failure_witness :
  @new_ContextManager test_runtime broken_middle_fs tt CONTEXTS_DIR [] =
    (Normal tt,
     @Build_State test_runtime
       (@Build_ContextManager test_runtime tt
          [("jupiter-dex-v4", jupiter)] CONTEXTS_DIR)
       [{| level := LError;
           message := "Failed to load context definitions:";
           cause := Some SyntaxError |}]).
Proof.
  assert (Hpre : Forall2 (@loads_as test_runtime broken_middle_fs CONTEXTS_DIR)
                   (filter recognized ["jupiter-dex.yaml"; "README.md"])
                   [jupiter]).
  { change (filter recognized ["jupiter-dex.yaml"; "README.md"])
      with ["jupiter-dex.yaml"].
    repeat constructor.
    exists "id: jupiter-dex-v4 name: Jupiter Aggregator type: dex".
    split; reflexivity. }
  assert (Hbad : @fails_with test_runtime broken_middle_fs CONTEXTS_DIR
                   "broken.json" SyntaxError).
  { right. exists "{ ". split; [reflexivity | left; reflexivity]. }
  exact (@load_stops_at_first_failure test_runtime broken_middle_fs tt
           CONTEXTS_DIR [] ["jupiter-dex.yaml"; "README.md"]
           ["magiceden-marketplace.yaml"] "broken.json" [jupiter] SyntaxError
           eq_refl eq_refl Hpre eq_refl Hbad).
Defined.


(* ===================================================================== *)
(** ** More on the registry                                               *)
(* ===================================================================== *)

Section MapMoreFacts.
Variable V : Type.
Implicit Types (m : JsMap V) (k : string) (v : V).

Lemma Map_has_get m k :
  Map_has m k = true <-> exists v, Map_get m k = Some v.
Proof.
  unfold Map_has. induction m as [|[k' v'] rest IH]; simpl.
  - split; [discriminate | intros [v Hv]; discriminate].
  - destruct (String.eqb k' k); simpl.
    + split; [intros _; now exists v' | reflexivity].
    + exact IH.
Qed.

Lemma Map_get_in m k v : Map_get m k = Some v -> In (k, v) m.
Proof.
  induction m as [|[k' v'] rest IH]; simpl; [discriminate |].
  destruct (String.eqb k' k) eqn:E.
  - apply String.eqb_eq in E. intros [= ->]. left. now subst.
  - intros H. right. now apply IH.
Qed.

Lemma Map_set_twice m k v : Map_set (Map_set m k v) k v = Map_set m k v.
Proof.
  induction m as [|[k' v'] rest IH]; simpl.
  - now rewrite String.eqb_refl.
  - destruct (String.eqb k' k) eqn:E; simpl.
    + now rewrite String.eqb_refl.
    + now rewrite E, IH.
Qed.

Lemma Map_set_length m k v :
  List.length (Map_set m k v) =
  if Map_has m k then List.length m else S (List.length m).
Proof.
  unfold Map_has. induction m as [|[k' v'] rest IH]; simpl.
  - reflexivity.
  - destruct (String.eqb k' k); simpl; [reflexivity |].
    rewrite IH. now destruct (existsb _ rest).
Qed.

Lemma Map_get_delete_same m k : Map_get (Map_delete m k) k = None.
Proof.
  induction m as [|[k' v'] rest IH]; simpl; [reflexivity |].
  destruct (String.eqb k' k) eqn:E; simpl; [exact IH | now rewrite E].
Qed.

Lemma Map_get_delete_other m k k0 :
  k <> k0 -> Map_get (Map_delete m k) k0 = Map_get m k0.
Proof.
  intros Hne. induction m as [|[k' v'] rest IH]; simpl; [reflexivity |].
  destruct (String.eqb k' k) eqn:E; simpl.
  - apply String.eqb_eq in E. subst k'.
    destruct (String.eqb k k0) eqn:E0; [apply String.eqb_eq in E0; tauto | exact IH].
  - destruct (String.eqb k' k0); [reflexivity | exact IH].
Qed.

Lemma Map_delete_absent m k : Map_has m k = false -> Map_delete m k = m.
Proof.
  unfold Map_has. induction m as [|[k' v'] rest IH]; simpl; [reflexivity |].
  destruct (String.eqb k' k); simpl; [discriminate |].
  intros H. now rewrite IH.
Qed.

End MapMoreFacts.

Lemma replace_absent_id (m : JsMap ContextDefinition) (k : string)
  (r : ContextDefinition) :
  Forall (fun kv => fst kv = id (snd kv)) m ->
  ~ In k (Map_keys m) ->
  map (fun c => if String.eqb (id c) k then r else c) (Map_values m) =
  Map_values m.
Proof.
  unfold Map_keys, Map_values.
  induction 1 as [|[k' v'] rest Hhd _ IH]; simpl; intros Hnotin.
  - reflexivity.
  - simpl in Hhd. subst k'.
    destruct (String.eqb (id v') k) eqn:E.
    + apply String.eqb_eq in E. tauto.
    + rewrite IH; [reflexivity | tauto].
Qed.

(** On a map whose keys are the ids of its records, each held once, [set]
    under an id already held replaces the record of that id where it stands. *)
Lemma Map_set_replaces (m : JsMap ContextDefinition) (r : ContextDefinition) :
  registry_ok m -> Map_has m (id r) = true ->
  Map_values (Map_set m (id r) r) =
  map (fun c => if String.eqb (id c) (id r) then r else c) (Map_values m).
Proof.
  intros [Hnd Hkeyed]. revert Hnd.
  induction Hkeyed as [|[k' v'] rest Hhd Htl IH]; intros Hnd Hhas.
  - discriminate Hhas.
  - simpl in Hhd. subst k'.
    unfold Map_keys in Hnd. simpl in Hnd.
    inversion Hnd as [|? ? Hnotin Hnd']; subst.
    unfold Map_has in Hhas. simpl in Hhas. simpl.
    destruct (String.eqb (id v') (id r)) eqn:E.
    + apply String.eqb_eq in E. unfold Map_values. simpl. f_equal.
      symmetry. apply (replace_absent_id rest (id r) r Htl).
      unfold Map_keys. now rewrite <- E.
    + simpl in Hhas. unfold Map_values in *. simpl. f_equal.
      now apply IH.
Qed.

Lemma find_last_app (A : Type) (p : A -> bool) (l : list A) (x : A) :
  find p (l ++ [x]) =
  match find p l with Some y => Some y | None => if p x then Some x else None end.
Proof.
  induction l as [|y l IH]; simpl.
  - reflexivity.
  - destruct (p y); [reflexivity | exact IH].
Qed.

(** After [set] for each definition of [defs], the record under [k] is the
    last definition of [defs] with that id, or the one held before. *)
Lemma set_all_get (defs : list ContextDefinition) :
  forall (m : JsMap ContextDefinition) (k : string),
    Map_get (set_all m defs) k =
    match find (fun d => String.eqb (id d) k) (rev defs) with
    | Some d => Some d
    | None => Map_get m k
    end.
Proof.
  unfold set_all. induction defs as [|d rest IH]; intros m k; simpl.
  - reflexivity.
  - rewrite IH, find_last_app.
    destruct (find _ (rev rest)); [reflexivity |].
    destruct (String.eqb (id d) k) eqn:E.
    + apply String.eqb_eq in E. subst k. apply Map_get_set_same.
    + apply Map_get_set_other. intros Heq. rewrite Heq in E.
      now rewrite String.eqb_refl in E.
Qed.

Section MoreRegistry.
Context {RT : Runtime}.

Lemma loadFiles_skips_unrecognized fs files : forall n st,
  loadFiles fs files n st = loadFiles fs (filter recognized files) n st.
Proof.
  induction files as [|file rest IH]; intros n st; simpl.
  - reflexivity.
  - destruct (recognized file) eqn:Hrec; simpl.
    + unfold bind. destruct (loadFile fs file st) as [[counted | e] st'].
      * apply IH.
      * reflexivity.
    + unfold bind. rewrite (loadFile_unrecognized fs file st Hrec). apply IH.
Qed.

Lemma loadFiles_relist fs listing files : forall n st,
  loadFiles (relist fs listing) files n st = loadFiles fs files n st.
Proof.
  induction files as [|file rest IH]; intros n st; simpl.
  - reflexivity.
  - unfold bind.
    change (loadFile (relist fs listing) file st) with (loadFile fs file st).
    destruct (loadFile fs file st) as [[counted | e] st']; [apply IH | reflexivity].
Qed.

Lemma new_ContextManager_all_load
  (fs : FileSystem) (conn : Connection) (path : string)
  (logs0 : list LogRecord) (files : list string)
  (defs : list ContextDefinition) :
  existsSync fs path = true ->
  readdirSync fs path = Normal files ->
  Forall2 (loads_as fs path) (filter recognized files) defs ->
  new_ContextManager fs conn path logs0 =
    (Normal tt,
     {| this := {| connection := conn; contexts := set_all Map_empty defs;
                   contextPath := path |};
        logs := logs0 ++
          [{| level := LInfo;
              message := "Loaded " ++ Number_toString (List.length defs) ++
                         " context definitions from " ++ path;
              cause := None |}] |}).
Proof.
  intros Hexists Hlist Hall.
  pose proof (loadFiles_all_load fs files defs 0
    {| this := {| connection := conn; contexts := Map_empty;
                  contextPath := path |};
       logs := logs0 |} Hall) as Hloop.
  unfold new_ContextManager, loadContexts, try_catch, bind, get_this, call.
  simpl. rewrite Hexists, Hlist. simpl. rewrite Hloop. reflexivity.
Qed.

(** X1: the constructor returns normally on every file system: whatever
    [existsSync], [readdirSync], [readFileSync] and the parsers do, it ends
    with a manager for the given connection and path, has written exactly
    one log record, and holds each key once, under the id of its record. *)
Theorem new_ContextManager_always_returns
  (fs : FileSystem) (conn : Connection) (path : string)
  (logs0 : list LogRecord) :
  exists l,
    fst (new_ContextManager fs conn path logs0) = Normal tt /\
    logs (snd (new_ContextManager fs conn path logs0)) = logs0 ++ [l] /\
    connection (this (snd (new_ContextManager fs conn path logs0))) = conn /\
    contextPath (this (snd (new_ContextManager fs conn path logs0))) = path /\
    registry_ok (contexts (this (snd (new_ContextManager fs conn path logs0)))).
Proof.
  unfold new_ContextManager.
  destruct (loadContexts_step fs
    {| this := {| connection := conn; contexts := Map_empty;
                  contextPath := path |};
       logs := logs0 |}) as (defs & l & H).
  rewrite H. simpl. exists l. repeat split.
  - apply (registry_ok_set_all defs Map_empty registry_ok_empty).
  - apply (registry_ok_set_all defs Map_empty registry_ok_empty).
Qed.

(** X2: when the path exists but listing it raises [e] (it is not a
    directory, or not readable), the constructor returns normally with an
    empty registry and one error record carrying [e]. *)
Theorem unlistable_directory_gives_empty_registry
  (fs : FileSystem) (conn : Connection) (path : string)
  (logs0 : list LogRecord) (e : JsError) :
  existsSync fs path = true ->
  readdirSync fs path = Throw e ->
  new_ContextManager fs conn path logs0 =
    (Normal tt,
     {| this := {| connection := conn; contexts := Map_empty;
                   contextPath := path |};
        logs := logs0 ++
          [{| level := LError;
              message := "Failed to load context definitions:";
              cause := Some e |}] |}).
Proof.
  intros Hexists Hlist.
  unfold new_ContextManager, loadContexts, try_catch, bind, get_this, call.
  simpl. rewrite Hexists, Hlist. reflexivity.
Qed.

(** X3: files without a recognized extension play no part in loading: the
    constructor ends in the same completion and the same state (registry and
    log) as on the file system whose listing has only the recognized files,
    in the same order. *)
Theorem unrecognized_files_play_no_part
  (fs : FileSystem) (conn : Connection) (path : string)
  (logs0 : list LogRecord) (files : list string) :
  readdirSync fs path = Normal files ->
  new_ContextManager fs conn path logs0 =
  new_ContextManager (relist fs (filter recognized files)) conn path logs0.
Proof.
  intros Hlist.
  unfold new_ContextManager, loadContexts, try_catch, bind, get_this, call.
  simpl. rewrite Hlist.
  destruct (existsSync fs path); simpl; [| reflexivity].
  rewrite loadFiles_relist.
  rewrite (loadFiles_skips_unrecognized fs files).
  reflexivity.
Qed.

(** X4: a registration touches one id only: for every other id,
    [getContext] returns after it what it returned before, whether the
    registration succeeded or not. *)
Theorem registerContext_keeps_other_ids
  (st : State) (r : ContextDefinition) (authority : PublicKey) (id0 : string) :
  id0 <> id r ->
  getContext (this (snd (registerContext r authority st))) id0 =
  getContext (this st) id0.
Proof.
  intros Hne.
  destruct (registerContext_step r authority st)
    as [(k & _ & H) | (e & _ & H)]; rewrite H; simpl; [| reflexivity].
  unfold getContext. simpl.
  rewrite Map_get_set_other; [reflexivity | congruence].
Qed.

(** X5: a successful registration under an id that the registry does not
    hold puts the record last in [getAllContexts()]. *)
Theorem registerContext_new_id_goes_last
  (st : State) (r : ContextDefinition) (authority k : PublicKey) :
  Map_has (contexts (this st)) (id r) = false ->
  fst (registerContext r authority st) = Normal (Some k) ->
  getAllContexts (this (snd (registerContext r authority st))) =
  getAllContexts (this st) ++ [r].
Proof.
  intros Hnew Hsucc.
  destruct (registerContext_step r authority st)
    as [(k' & _ & H) | (e & _ & H)]; rewrite H in *; simpl in *;
    [| discriminate].
  apply Map_has_false in Hnew.
  unfold getAllContexts, Map_values. simpl.
  rewrite (Map_set_fresh _ _ _ Hnew), map_app. reflexivity.
Qed.

(** X6: in a reachable state, a successful registration under an id already
    held replaces the record of that id where it stands: the listing after is
    the listing before with that one record changed, so the order of the ids
    and the number of records stay the same. *)
Theorem registerContext_overwrites_in_place
  (st : State) (r : ContextDefinition) (authority k : PublicKey) :
  reachable st ->
  Map_has (contexts (this st)) (id r) = true ->
  fst (registerContext r authority st) = Normal (Some k) ->
  getAllContexts (this (snd (registerContext r authority st))) =
    map (fun c => if String.eqb (id c) (id r) then r else c)
        (getAllContexts (this st)) /\
  map id (getAllContexts (this (snd (registerContext r authority st)))) =
    map id (getAllContexts (this st)).
Proof.
  intros Hreach Hheld Hsucc.
  pose proof (reachable_registry_ok st Hreach) as Hok.
  destruct (registerContext_step r authority st)
    as [(k' & _ & H) | (e & _ & H)]; rewrite H in *; simpl in *;
    [| discriminate].
  unfold getAllContexts. simpl.
  rewrite (Map_set_replaces _ r Hok Hheld). split; [reflexivity |].
  rewrite map_map. apply map_ext. intros c.
  destruct (String.eqb (id c) (id r)) eqn:E; [| reflexivity].
  apply String.eqb_eq in E. congruence.
Qed.

(** X7: a registration removes nothing: every key held before it is held
    after it, and the number of records does not go down. *)
Theorem registerContext_never_removes
  (st : State) (r : ContextDefinition) (authority : PublicKey) :
  incl (Map_keys (contexts (this st)))
       (Map_keys (contexts (this (snd (registerContext r authority st))))) /\
  List.length (getAllContexts (this st)) <=
  List.length (getAllContexts (this (snd (registerContext r authority st)))).
Proof.
  destruct (registerContext_step r authority st)
    as [(k & _ & H) | (e & _ & H)]; rewrite H; simpl.
  - split.
    + intros x Hx. apply Map_keys_set. now right.
    + unfold getAllContexts, Map_values. simpl. rewrite !length_map.
      rewrite Map_set_length. destruct (Map_has _ _); lia.
  - split; [apply incl_refl | lia].
Qed.

(** X8: registering the same record twice in a row leaves the registry as
    it is after the first registration. *)
Theorem registerContext_twice
  (st : State) (r : ContextDefinition) (a1 a2 : PublicKey) :
  contexts (this (snd (registerContext r a2
                         (snd (registerContext r a1 st))))) =
  contexts (this (snd (registerContext r a1 st))).
Proof.
  destruct (registerContext_step r a1 st)
    as [(k & Hk & H) | (e & He & H)]; rewrite H.
  - match goal with |- context [registerContext r a2 ?s] =>
      destruct (registerContext_step r a2 s)
        as [(k2 & _ & H2) | (e2 & He2 & _)]; [rewrite H2 | congruence]
    end.
    simpl. apply Map_set_twice.
  - match goal with |- context [registerContext r a2 ?s] =>
      destruct (registerContext_step r a2 s)
        as [(k2 & Hk2 & _) | (e2 & _ & H2)]; [congruence | rewrite H2]
    end.
    reflexivity.
Qed.


(** X10: the case of the capabilities asked for does not matter: two
    queries whose capabilities have the same lower-case forms, one by one,
    return the same records. *)
Theorem findContextsByCapabilities_ignores_query_case
  (mgr : ContextManager) (caps caps' : list string) :
  map toLowerCase caps = map toLowerCase caps' ->
  findContextsByCapabilities mgr caps = findContextsByCapabilities mgr caps'.
Proof.
  intros Hsame. unfold findContextsByCapabilities.
  rewrite !collectMatches_filter. apply filter_ext. intros c.
  revert caps' Hsame.
  induction caps as [|cap rest IH]; intros [|cap' rest'] Hsame;
    simpl in *; try discriminate; [reflexivity |].
  injection Hsame as Hcap Hrest.
  rewrite (IH rest' Hrest). f_equal.
  unfold hasCapability. now rewrite Hcap.
Qed.

(** X11: in a reachable state lookup and listing agree: [getContext(id)]
    returns [r] exactly when [r] is in [getAllContexts()] and has that id. *)
Theorem getContext_agrees_with_listing
  (st : State) (id0 : string) (r : ContextDefinition) :
  reachable st ->
  (getContext (this st) id0 = Some r <->
   In r (getAllContexts (this st)) /\ id r = id0).
Proof.
  intros Hreach. pose proof (reachable_registry_ok st Hreach) as Hok.
  split.
  - unfold getContext. intros Hget.
    destruct (Map_get (contexts (this st)) id0) as [d |] eqn:E; [| discriminate].
    injection Hget as ->. apply Map_get_in in E.
    destruct Hok as [_ Hkeyed].
    pose proof (proj1 (Forall_forall _ _) Hkeyed _ E) as Hk. simpl in Hk.
    split; [| now symmetry].
    unfold getAllContexts, Map_values. apply in_map_iff.
    exists (id0, r). now split.
  - intros [Hin <-]. now apply held_record_is_found.
Qed.

(** X12: when every recognized file loads, the record found under an id
    after construction is the definition of the last file of the listing
    that carries this id. *)
Theorem last_descriptor_of_an_id_wins
  (fs : FileSystem) (conn : Connection) (path : string)
  (logs0 : list LogRecord) (files : list string)
  (defs : list ContextDefinition) (id0 : string) :
  existsSync fs path = true ->
  readdirSync fs path = Normal files ->
  Forall2 (loads_as fs path) (filter recognized files) defs ->
  getContext (this (snd (new_ContextManager fs conn path logs0))) id0 =
  find (fun d => String.eqb (id d) id0) (rev defs).
Proof.
  intros Hexists Hlist Hall.
  rewrite (new_ContextManager_all_load fs conn path logs0 files defs
             Hexists Hlist Hall).
  unfold getContext. simpl. rewrite set_all_get. simpl.
  now destruct (find _ (rev defs)).
Qed.

End MoreRegistry.

(* ===================================================================== *)
(** ** The wallets                                                        *)
(* ===================================================================== *)

Section WalletFacts.
Context {RT : Runtime} {LIB : Libraries}.

(** X13: after [registerWallet(pk, provider)], [getWallet] returns
    [provider] for every key with the text of [pk] (an earlier provider under
    that text is replaced), and for every other key what it returned
    before. *)
Theorem registerWallet_then_getWallet
  (st : Wallet.State) (pk pk' : PublicKey) (provider : Wallet.WalletProvider) :
  fst (Wallet.registerWallet pk provider st) = Normal tt /\
  Wallet.getWallet (Wallet.this (snd (Wallet.registerWallet pk provider st))) pk' =
    if String.eqb (PublicKey_toString pk) (PublicKey_toString pk')
    then Some provider
    else Wallet.getWallet (Wallet.this st) pk'.
Proof.
  split; [reflexivity |].
  unfold Wallet.getWallet. simpl.
  destruct (String.eqb (PublicKey_toString pk) (PublicKey_toString pk')) eqn:E.
  - apply String.eqb_eq in E. rewrite <- E. now rewrite Map_get_set_same.
  - apply String.eqb_neq in E. now rewrite (Map_get_set_other _ _ _ _ _ E).
Qed.

(** X14: after [removeWallet(pk)], [getWallet] returns [null] for every key
    with the text of [pk] and, for every other key, what it returned before;
    the removal is logged whether or not a wallet was registered, and when
    none was the wallets are left as they were. *)
Theorem removeWallet_then_getWallet
  (st : Wallet.State) (pk pk' : PublicKey) :
  fst (Wallet.removeWallet pk st) = Normal tt /\
  Wallet.getWallet (Wallet.this (snd (Wallet.removeWallet pk st))) pk' =
    (if String.eqb (PublicKey_toString pk) (PublicKey_toString pk')
     then None
     else Wallet.getWallet (Wallet.this st) pk') /\
  Wallet.logs (snd (Wallet.removeWallet pk st)) =
    Wallet.logs st ++
    [{| level := LInfo;
        message := "Wallet removed: " ++ PublicKey_toString pk;
        cause := None |}] /\
  (Wallet.getWallet (Wallet.this st) pk = None ->
   Wallet.connectedWallets (Wallet.this (snd (Wallet.removeWallet pk st))) =
   Wallet.connectedWallets (Wallet.this st)).
Proof.
  split; [reflexivity | split; [| split; [reflexivity |]]].
  - unfold Wallet.getWallet. simpl.
    destruct (String.eqb (PublicKey_toString pk) (PublicKey_toString pk')) eqn:E.
    + apply String.eqb_eq in E. rewrite <- E. now rewrite Map_get_delete_same.
    + apply String.eqb_neq in E. now rewrite (Map_get_delete_other _ _ _ _ E).
  - unfold Wallet.getWallet. simpl. intros Habsent.
    apply Map_delete_absent.
    destruct (Map_has (Wallet.connectedWallets (Wallet.this st))
                      (PublicKey_toString pk)) eqn:Hhas; [| reflexivity].
    apply Map_has_get in Hhas. destruct Hhas as [v Hv].
    rewrite Hv in Habsent. discriminate.
Qed.

(** X15: registering a wallet under a text that was free and removing it
    again gives back the wallets as they were. *)
Theorem registerWallet_then_removeWallet
  (st : Wallet.State) (pk : PublicKey) (provider : Wallet.WalletProvider) :
  Wallet.getWallet (Wallet.this st) pk = None ->
  Wallet.connectedWallets
    (Wallet.this (snd (Wallet.removeWallet pk
                         (snd (Wallet.registerWallet pk provider st))))) =
  Wallet.connectedWallets (Wallet.this st).
Proof.
  unfold Wallet.getWallet. simpl. intros Habsent.
  set (m := Wallet.connectedWallets (Wallet.this st)) in *.
  set (k := PublicKey_toString pk) in *.
  assert (Hnone : Map_get m k = None) by (now destruct (Map_get m k)).
  clear Habsent. induction m as [|[k' v'] rest IH]; simpl in *.
  - now rewrite String.eqb_refl.
  - destruct (String.eqb k' k) eqn:E; [discriminate |].
    simpl. rewrite E. f_equal. now apply IH.
Qed.

(** X16: [createLocalWallet] returns the public key of the key pair drawn
    and a provider for it, registered under that key: [getWallet] of the key
    returned gives the provider returned, whose [publicKey] and whose
    [connect()] give the same key. *)
Theorem createLocalWallet_registers_its_provider
  (st : Wallet.State) (keypair : Keypair) :
  exists provider,
    fst (Wallet.createLocalWallet keypair st) =
      Normal (Keypair_publicKey keypair, provider) /\
    Wallet.getWallet (Wallet.this (snd (Wallet.createLocalWallet keypair st)))
      (Keypair_publicKey keypair) = Some provider /\
    Wallet.publicKey provider = Keypair_publicKey keypair /\
    Wallet.connect provider tt = Normal (Keypair_publicKey keypair).
Proof.
  exists (Wallet.localProvider keypair).
  split; [reflexivity | split; [| split; reflexivity]].
  unfold Wallet.getWallet. simpl. now rewrite Map_get_set_same.
Qed.

(** X17: [setupAgentForWallet] never raises and never changes the wallets;
    it writes one log record, and it returns [true] exactly when a wallet is
    registered for the key and [agent.getName()] returns. *)
Theorem setupAgentForWallet_never_raises
  (st : Wallet.State) (agent : Agent) (pk : PublicKey) :
  exists answer l,
    Wallet.setupAgentForWallet agent pk st =
      (Normal answer,
       {| Wallet.this := Wallet.this st;
          Wallet.logs := Wallet.logs st ++ [l] |}) /\
    (answer = true <->
     (exists wallet, Wallet.getWallet (Wallet.this st) pk = Some wallet) /\
     (exists agentName, Agent_getName agent = Normal agentName)).
Proof.
  unfold Wallet.setupAgentForWallet, eff_try, eff_bind, eff_get, eff_call.
  destruct (Wallet.getWallet (Wallet.this st) pk) as [wallet |] eqn:Hw; simpl.
  - destruct (Agent_getName agent) as [agentName | e] eqn:Hn; simpl.
    + exists true. eexists. split; [reflexivity |].
      split; [intros _ | reflexivity].
      split; [now exists wallet | now exists agentName].
    + exists false. eexists. split; [reflexivity |].
      split; [discriminate | intros [_ [n Hn']]; discriminate].
  - exists false. eexists. split; [reflexivity |].
    split; [discriminate | intros [[w Hw'] _]; discriminate].
Qed.

End WalletFacts.

(* ===================================================================== *)
(** ** The agents                                                         *)
(* ===================================================================== *)

(** The floor of twice a number of the interval from 0 (included) to 1
    (excluded) is 0 or 1. *)
Lemma floor_of_double_draw (random : QArith_base.Q) :
  QArith_base.Qle (QArith_base.inject_Z 0) random ->
  QArith_base.Qlt random (QArith_base.inject_Z 1) ->
  Qround.Qfloor (QArith_base.Qmult random (QArith_base.inject_Z 2)) = 0%Z \/
  Qround.Qfloor (QArith_base.Qmult random (QArith_base.inject_Z 2)) = 1%Z.
Proof.
  intros Hlo Hhi.
  set (x := QArith_base.Qmult random (QArith_base.inject_Z 2)).
  assert (Hx0 : QArith_base.Qle (QArith_base.inject_Z 0) x).
  { unfold x, QArith_base.Qle, QArith_base.Qmult, QArith_base.inject_Z in *.
    destruct random as [n d]. simpl in *. lia. }
  assert (Hx2 : QArith_base.Qlt x (QArith_base.inject_Z 2)).
  { unfold x, QArith_base.Qlt, QArith_base.Qmult, QArith_base.inject_Z in *.
    destruct random as [n d]. simpl in *. lia. }
  pose proof (Qround.Qfloor_resp_le _ _ Hx0) as Hfl0.
  rewrite Qround.Qfloor_Z in Hfl0.
  pose proof (Qround.Qfloor_le x) as Hfl.
  pose proof (QArith_base.Qle_lt_trans _ _ _ Hfl Hx2) as Hlt.
  rewrite <- QArith_base.Zlt_Qlt in Hlt.
  lia.
Qed.

Section AgentFacts.
Context {RT : Runtime} {LIB : Libraries}.

(** X18: for a draw of [Math.random()] (from 0 included to 1 excluded),
    [getAgentType] answers [defi] or [nft] for every agent id, never [null]:
    an id outside the fixed mapping gets one of the two types by the draw. *)
Theorem getAgentType_defi_or_nft (agentId : PublicKey) (random : QArith_base.Q) :
  QArith_base.Qle (QArith_base.inject_Z 0) random ->
  QArith_base.Qlt random (QArith_base.inject_Z 1) ->
  Agents.getAgentType agentId random = Some "defi" \/
  Agents.getAgentType agentId random = Some "nft".
Proof.
  intros Hlo Hhi. unfold Agents.getAgentType.
  set (text := PublicKey_toString agentId).
  assert (Hprop : property Agents.agentMapping text =
                  if String.eqb "3XysKy..." text then Some "defi"
                  else if String.eqb "5tGpV9..." text then Some "nft"
                  else None) by reflexivity.
  rewrite Hprop. clear Hprop.
  destruct (String.eqb "3XysKy..." text); [left; reflexivity |].
  destruct (String.eqb "5tGpV9..." text); [right; reflexivity |].
  change (Array_at ["defi"; "nft"]
            (Qround.Qfloor
               (QArith_base.Qmult random (QArith_base.inject_Z 2))) =
          Some "defi" \/
          Array_at ["defi"; "nft"]
            (Qround.Qfloor
               (QArith_base.Qmult random (QArith_base.inject_Z 2))) =
          Some "nft").
  destruct (floor_of_double_draw random Hlo Hhi) as [-> | ->];
    [left | right]; reflexivity.
Qed.

(** What one call of [getAgent] does: a hit in the cache, a new agent built
    and cached, or [null] with one record logged and the cache as it was. *)
Lemma getAgent_step (agentId : PublicKey) (random : QArith_base.Q)
  (st : Agents.State) :
  (exists a,
     Map_get (Agents.agents (Agents.this st)) (PublicKey_toString agentId) = Some a /\
     Agents.getAgent agentId random st = (Normal (Some a), st)) \/
  (exists a,
     Map_has (Agents.agents (Agents.this st)) (PublicKey_toString agentId) = false /\
     Agents.getAgent agentId random st =
       (Normal (Some a),
        {| Agents.this :=
             {| Agents.connection := Agents.connection (Agents.this st);
                Agents.contextManager := Agents.contextManager (Agents.this st);
                Agents.agents :=
                  Map_set (Agents.agents (Agents.this st))
                          (PublicKey_toString agentId) a |};
           Agents.logs := Agents.logs st |})) \/
  (exists l,
     Map_has (Agents.agents (Agents.this st)) (PublicKey_toString agentId) = false /\
     Agents.getAgent agentId random st =
       (Normal None,
        {| Agents.this := Agents.this st;
           Agents.logs := Agents.logs st ++ [l] |})).
Proof.
  unfold Agents.getAgent, eff_bind, eff_get. simpl.
  destruct (Map_has (Agents.agents (Agents.this st)) (PublicKey_toString agentId))
    eqn:Hhas.
  - left. apply Map_has_get in Hhas. destruct Hhas as [a Ha].
    exists a. rewrite Ha. split; reflexivity.
  - right. unfold eff_try, eff_bind.
    destruct (truthy (Agents.getAgentType agentId random)); simpl.
    + unfold Agents.createAgentByType, eff_bind, eff_get, eff_try, eff_call.
      simpl.
      destruct (String.eqb _ "defi").
      * destruct (new_SolanaDeFiAgent _) as [a | e]; simpl.
        -- left. exists a. split; reflexivity.
        -- right. eexists. split; [reflexivity |].
           destruct st as [[c cm ag] l]; reflexivity.
      * destruct (String.eqb _ "nft").
        -- destruct (new_NFTMarketAgent _) as [a | e]; simpl.
           ++ left. exists a. split; reflexivity.
           ++ right. eexists. split; [reflexivity |].
              destruct st as [[c cm ag] l]; reflexivity.
        -- simpl. right. eexists. split; [reflexivity |].
           destruct st as [[c cm ag] l]; reflexivity.
    + right. eexists. split; [reflexivity |].
      destruct st as [[c cm ag] l]; reflexivity.
Qed.

(** X19: [getAgent] never raises, and what it returns is what it keeps:
    when it returns an agent, that agent is afterwards the one cached under
    the text of the id; when it returns [null], the cache is as it was. In
    both cases the agents cached under other texts are untouched. *)
Theorem getAgent_never_raises (agentId : PublicKey) (random : QArith_base.Q)
  (st : Agents.State) :
  exists answer,
    fst (Agents.getAgent agentId random st) = Normal answer /\
    Map_get (Agents.agents (Agents.this (snd (Agents.getAgent agentId random st))))
            (PublicKey_toString agentId) =
      match answer with
      | Some a => Some a
      | None => None
      end /\
    (forall k, k <> PublicKey_toString agentId ->
       Map_get (Agents.agents (Agents.this (snd (Agents.getAgent agentId random st)))) k =
       Map_get (Agents.agents (Agents.this st)) k).
Proof.
  destruct (getAgent_step agentId random st)
    as [(a & Ha & H) | [(a & Hfree & H) | (l & Hfree & H)]]; rewrite H; simpl.
  - exists (Some a). repeat split; trivial.
  - exists (Some a). split; [reflexivity | split].
    + apply Map_get_set_same.
    + intros k Hk. apply Map_get_set_other. congruence.
  - exists None. split; [reflexivity | split; [| reflexivity]].
    destruct (Map_get _ _) as [a |] eqn:E; [| reflexivity].
    assert (Hhas : Map_has (Agents.agents (Agents.this st))
                           (PublicKey_toString agentId) = true).
    { apply Map_has_get. now exists a. }
    congruence.
Qed.

(** X20: once [getAgent] has returned an agent for an id, every later
    [getAgent] for a key of the same text returns that same agent, whatever
    the draw, builds nothing and leaves the state as it is. *)
Theorem getAgent_returns_the_cached_agent
  (agentId agentId' : PublicKey) (random random' : QArith_base.Q)
  (st : Agents.State) (a : Agent) :
  fst (Agents.getAgent agentId random st) = Normal (Some a) ->
  PublicKey_toString agentId' = PublicKey_toString agentId ->
  Agents.getAgent agentId' random' (snd (Agents.getAgent agentId random st)) =
  (Normal (Some a), snd (Agents.getAgent agentId random st)).
Proof.
  intros Hfirst Hsame.
  assert (Hcached :
    Map_get (Agents.agents (Agents.this (snd (Agents.getAgent agentId random st))))
            (PublicKey_toString agentId') = Some a).
  { rewrite Hsame.
    destruct (getAgent_step agentId random st)
      as [(a0 & Ha & H) | [(a0 & Hfree & H) | (l & Hfree & H)]];
      rewrite H in *; simpl in *.
    - congruence.
    - injection Hfirst as <-. apply Map_get_set_same.
    - discriminate. }
  destruct (getAgent_step agentId' random'
              (snd (Agents.getAgent agentId random st)))
    as [(a1 & Ha1 & H1) | [(a1 & Hfree & _) | (l & Hfree & _)]].
  - rewrite H1. congruence.
  - assert (Map_has (Agents.agents (Agents.this
              (snd (Agents.getAgent agentId random st))))
              (PublicKey_toString agentId') = true)
      by (apply Map_has_get; now exists a).
    congruence.
  - assert (Map_has (Agents.agents (Agents.this
              (snd (Agents.getAgent agentId random st))))
              (PublicKey_toString agentId') = true)
      by (apply Map_has_get; now exists a).
    congruence.
Qed.

(** X21: with agent constructors that return, and a draw of
    [Math.random()], [getAgent] finds an agent for every id: the branch for
    an agent missing from the registry is never taken. *)
Theorem getAgent_finds_every_id
  (agentId : PublicKey) (random : QArith_base.Q) (st : Agents.State) :
  (forall options, exists a, new_SolanaDeFiAgent options = Normal a) ->
  (forall options, exists a, new_NFTMarketAgent options = Normal a) ->
  QArith_base.Qle (QArith_base.inject_Z 0) random ->
  QArith_base.Qlt random (QArith_base.inject_Z 1) ->
  exists a, fst (Agents.getAgent agentId random st) = Normal (Some a).
Proof.
  intros Hdefi Hnft Hlo Hhi.
  unfold Agents.getAgent, eff_bind, eff_get. simpl.
  destruct (Map_has (Agents.agents (Agents.this st)) (PublicKey_toString agentId))
    eqn:Hhas.
  - apply Map_has_get in Hhas. destruct Hhas as [a Ha].
    exists a. now rewrite Ha.
  - unfold eff_try, eff_bind.
    destruct (getAgentType_defi_or_nft agentId random Hlo Hhi) as [-> | ->];
      simpl; unfold Agents.createAgentByType, eff_bind, eff_get, eff_try,
               eff_call; simpl.
    + match goal with |- context [new_SolanaDeFiAgent ?o] =>
        destruct (Hdefi o) as [a ->] end.
      now exists a.
    + match goal with |- context [new_NFTMarketAgent ?o] =>
        destruct (Hnft o) as [a ->] end.
      now exists a.
Qed.

(** X22: [registerAgent] never raises and stores nothing: the manager is
    left as it was (the cache of agents included), one record is logged, and
    the value returned is the key built from the fixed text
    3Xm6F4v3UKqZphALNuMpMEKRvRqQhBiN7DUBwihMTmup, or [null] when building
    it raises. *)
Theorem registerAgent_stores_nothing
  (name0 type0 : string) (authority : PublicKey) (st : Agents.State) :
  exists answer l,
    Agents.registerAgent name0 type0 authority st =
      (Normal answer,
       {| Agents.this := Agents.this st;
          Agents.logs := Agents.logs st ++ [l] |}) /\
    (forall k, answer = Some k <->
       PublicKey_new "3Xm6F4v3UKqZphALNuMpMEKRvRqQhBiN7DUBwihMTmup" = Normal k).
Proof.
  unfold Agents.registerAgent, eff_try, eff_bind, eff_call.
  change Agents.NEW_AGENT_ID
    with "3Xm6F4v3UKqZphALNuMpMEKRvRqQhBiN7DUBwihMTmup".
  destruct (PublicKey_new "3Xm6F4v3UKqZphALNuMpMEKRvRqQhBiN7DUBwihMTmup")
    as [k | e]; simpl.
  - exists (Some k). eexists. split; [reflexivity |].
    intros k'. split; congruence.
  - exists None. eexists. split; [reflexivity |].
    intros k'. split; discriminate.
Qed.

End AgentFacts.

(* ===================================================================== *)
(** ** The context routes                                                 *)
(* ===================================================================== *)

Section ApiFacts.
Context {RT : Runtime}.

(** X24: [GET /contexts/:id] answers 404 with the error [Context not found]
    exactly when the id is not a key of the registry, and otherwise 200 with
    the record that [getContext] returns for the id. *)
Theorem get_context_by_id_status (mgr : ContextManager) (id0 : string) :
  (Map_has (contexts mgr) id0 = false <->
   Api.get_context_by_id mgr id0 =
   {| Api.status := 404; Api.body := Api.JsonError "Context not found" |}) /\
  (forall r, getContext mgr id0 = Some r <->
   Api.get_context_by_id mgr id0 =
   {| Api.status := 200; Api.body := Api.JsonContext r |}).
Proof.
  unfold Api.get_context_by_id, getContext.
  destruct (Map_get (contexts mgr) id0) as [d |] eqn:E.
  - assert (Hhas : Map_has (contexts mgr) id0 = true)
      by (apply Map_has_get; now exists d).
    split.
    + rewrite Hhas. split; discriminate.
    + intros r. split; [intros [= ->]; reflexivity | intros [= ->]; reflexivity].
  - assert (Hhas : Map_has (contexts mgr) id0 = false).
    { destruct (Map_has (contexts mgr) id0) eqn:Hh; [| reflexivity].
      apply Map_has_get in Hh. destruct Hh as [v Hv]. congruence. }
    split.
    + rewrite Hhas. split; reflexivity.
    + intros r. split; discriminate.
Qed.

End ApiFacts.

(* ===================================================================== *)
(** ** The price cache                                                    *)
(* ===================================================================== *)

Section BinanceFacts.
Variable axios_get_price : string -> Completion string.

(** X25: after a ticker message for a symbol, [getPrice] of that symbol
    returns the price of the message, whatever the upstream would answer,
    and changes nothing; the prices of the other symbols are answered as
    before the message. *)
Theorem ticker_then_getPrice
  (message0 : Binance.TickerMessage) (st : Binance.State) :
  Binance.getPrice axios_get_price (Binance.s message0)
    (snd (Binance.handleTickerMessage message0 st)) =
  (Normal (Binance.c message0), snd (Binance.handleTickerMessage message0 st)) /\
  (forall symbol0, symbol0 <> Binance.s message0 ->
     fst (Binance.getPrice axios_get_price symbol0
            (snd (Binance.handleTickerMessage message0 st))) =
     fst (Binance.getPrice axios_get_price symbol0 st)).
Proof.
  split.
  - unfold Binance.getPrice, eff_try, eff_bind, eff_get. simpl.
    assert (Hget : Map_get (Map_set (Binance.marketData st) (Binance.s message0)
                     {| Binance.symbol := Binance.s message0;
                        Binance.price := Binance.c message0;
                        Binance.time := Binance.E message0 |})
                     (Binance.s message0) =
                   Some {| Binance.symbol := Binance.s message0;
                           Binance.price := Binance.c message0;
                           Binance.time := Binance.E message0 |})
      by apply Map_get_set_same.
    assert (Hhas : Map_has (Map_set (Binance.marketData st) (Binance.s message0)
                     {| Binance.symbol := Binance.s message0;
                        Binance.price := Binance.c message0;
                        Binance.time := Binance.E message0 |})
                     (Binance.s message0) = true).
    { apply Map_has_get. eexists. exact Hget. }
    rewrite Hhas, Hget. reflexivity.
  - intros symbol0 Hne.
    unfold Binance.getPrice, eff_try, eff_bind, eff_get. simpl.
    assert (Hget : forall v,
              Map_get (Map_set (Binance.marketData st) (Binance.s message0) v)
                      symbol0 = Map_get (Binance.marketData st) symbol0).
    { intros v. apply Map_get_set_other. congruence. }
    assert (Hhas : forall v,
              Map_has (Map_set (Binance.marketData st) (Binance.s message0) v)
                      symbol0 = Map_has (Binance.marketData st) symbol0).
    { intros v. apply eq_iff_eq_true. rewrite !Map_has_get.
      now setoid_rewrite Hget. }
    rewrite Hhas, Hget.
    destruct (Map_has (Binance.marketData st) symbol0).
    + now destruct (Map_get (Binance.marketData st) symbol0).
    + unfold eff_call. now destruct (axios_get_price symbol0).
Qed.

(** X26: [getPrice] never changes the cache and raises one error only:
    when it returns a price, that price is the cached one if the symbol is
    cached and the answer of the upstream otherwise, and nothing is written;
    when it raises, the symbol was not cached, the upstream raised, that
    error was written to the console, and the error raised is
    [Failed to get price for <symbol>]. *)
Theorem getPrice_outcomes (symbol0 : string) (st : Binance.State) :
  Binance.marketData (snd (Binance.getPrice axios_get_price symbol0 st)) =
    Binance.marketData st /\
  match fst (Binance.getPrice axios_get_price symbol0 st) with
  | Normal p =>
      Binance.console (snd (Binance.getPrice axios_get_price symbol0 st)) =
        Binance.console st /\
      ((exists data, Map_get (Binance.marketData st) symbol0 = Some data /\
                     Binance.price data = p) \/
       (Map_has (Binance.marketData st) symbol0 = false /\
        axios_get_price symbol0 = Normal p))
  | Throw e =>
      e = {| errName := "Error";
             errMessage := "Failed to get price for " ++ symbol0 |} /\
      Map_has (Binance.marketData st) symbol0 = false /\
      exists upstream,
        axios_get_price symbol0 = Throw upstream /\
        Binance.console (snd (Binance.getPrice axios_get_price symbol0 st)) =
          Binance.console st ++
          [{| level := LError;
              message := "Error fetching price for " ++ symbol0 ++ ":";
              cause := Some upstream |}]
  end.
Proof.
  unfold Binance.getPrice, eff_try, eff_bind, eff_get, eff_call. simpl.
  destruct (Map_has (Binance.marketData st) symbol0) eqn:Hhas.
  - apply Map_has_get in Hhas. destruct Hhas as [data Hdata].
    rewrite Hdata. simpl. split; [reflexivity | split; [reflexivity |]].
    left. now exists data.
  - destruct (axios_get_price symbol0) as [p | upstream] eqn:Hup; simpl.
    + split; [reflexivity | split; [reflexivity |]]. now right.
    + split; [reflexivity | split; [reflexivity | split; [reflexivity |]]].
      now exists upstream.
Qed.

End BinanceFacts.

(* ===================================================================== *)
(** ** The further properties at concrete inputs                          *)
(* ===================================================================== *)

(** X2 on a path that is a plain file. *)
Lemma unlistable_directory_gives_empty_registry_witness :
  @getAllContexts test_runtime
    (this (snd (@new_ContextManager test_runtime plain_file_fs tt
                  CONTEXTS_DIR []))) = [] /\
  map message
    (logs (snd (@new_ContextManager test_runtime plain_file_fs tt
                  CONTEXTS_DIR []))) =
  ["Failed to load context definitions:"].
Proof.
  rewrite (@unlistable_directory_gives_empty_registry test_runtime
             plain_file_fs tt CONTEXTS_DIR [] ENOTDIR eq_refl eq_refl).
  split; reflexivity.
Defined.

(** X3 on the directory of the test-suite, whose third file is test.txt. *)
Lemma unrecognized_files_play_no_part_witness :
  @new_ContextManager test_runtime test_fs tt CONTEXTS_DIR [] =
  @new_ContextManager test_runtime
    (relist test_fs ["jupiter-dex.yaml"; "magiceden-marketplace.yaml"])
    tt CONTEXTS_DIR [].
Proof.
  exact (@unrecognized_files_play_no_part test_runtime test_fs tt CONTEXTS_DIR []
           ["jupiter-dex.yaml"; "magiceden-marketplace.yaml"; "test.txt"]
           eq_refl).
Defined.

(** X4: registering the test context leaves the lookup of jupiter alone. *)
Lemma registerContext_keeps_other_ids_witness :
  "jupiter-dex-v4" <> id test_context /\
  @getContext test_runtime
    (this (snd (@registerContext test_runtime test_context "authority"
                  test_state)))
    "jupiter-dex-v4" = Some jupiter.
Proof.
  assert (Hne : "jupiter-dex-v4" <> id test_context) by discriminate.
  split; [exact Hne |].
  rewrite (@registerContext_keeps_other_ids test_runtime test_state
             test_context "authority" "jupiter-dex-v4" Hne).
  reflexivity.
Defined.

(** X5: the test context, a new id, goes after the two loaded records. *)
Lemma registerContext_new_id_goes_last_witness :
  @getAllContexts test_runtime
    (this (snd (@registerContext test_runtime test_context "authority"
                  test_state))) =
  [jupiter; magiceden; test_context].
Proof.
  exact (@registerContext_new_id_goes_last test_runtime test_state
           test_context "authority" NEW_CONTEXT_ID eq_refl eq_refl).
Defined.

(** X6: a second record under the id of jupiter takes its place, first. *)
Lemma registerContext_overwrites_in_place_witness :
  @getAllContexts test_runtime
    (this (snd (@registerContext test_runtime jupiter_v2 "authority"
                  test_state))) =
  [jupiter_v2; magiceden].
Proof.
  assert (Hreach : @reachable test_runtime test_state).
  { unfold test_state. apply (@reach_new test_runtime). }
  destruct (@registerContext_overwrites_in_place test_runtime test_state
              jupiter_v2 "authority" NEW_CONTEXT_ID Hreach eq_refl eq_refl)
    as [Hlisting _].
  rewrite Hlisting. reflexivity.
Defined.

(** X10: the query in upper case returns what the query in lower case
    does. *)
Lemma findContextsByCapabilities_ignores_query_case_witness :
  @findContextsByCapabilities test_runtime test_manager
    ["TOKEN_SWAPS"; "Route_Optimization"] =
  @findContextsByCapabilities test_runtime test_manager
    ["token_swaps"; "route_optimization"].
Proof.
  exact (@findContextsByCapabilities_ignores_query_case test_runtime
           test_manager ["TOKEN_SWAPS"; "Route_Optimization"]
           ["token_swaps"; "route_optimization"] eq_refl).
Defined.

(** X11 on the state of the test-suite. *)
Lemma getContext_agrees_with_listing_witness :
  @getContext test_runtime (this test_state) "magiceden-v2" = Some magiceden <->
  In magiceden (@getAllContexts test_runtime (this test_state)) /\
  id magiceden = "magiceden-v2".
Proof.
  apply (@getContext_agrees_with_listing test_runtime test_state
           "magiceden-v2" magiceden).
  unfold test_state. apply (@reach_new test_runtime).
Defined.

(** X12 on the directory with two descriptors of one id: the second wins. *)
Lemma last_descriptor_of_an_id_wins_witness :
  @getContext test_runtime
    (this (snd (@new_ContextManager test_runtime same_id_fs tt
                  CONTEXTS_DIR [])))
    "jupiter-dex-v4" = Some jupiter_v2.
Proof.
  assert (Hall : Forall2 (@loads_as test_runtime same_id_fs CONTEXTS_DIR)
                   (filter recognized
                      ["jupiter-dex.yaml"; "jupiter-mirror.yaml"; "notes.txt"])
                   [jupiter; jupiter_v2]).
  { change (filter recognized
              ["jupiter-dex.yaml"; "jupiter-mirror.yaml"; "notes.txt"])
      with ["jupiter-dex.yaml"; "jupiter-mirror.yaml"].
    repeat constructor.
    - exists "id: jupiter-dex-v4 name: Jupiter Aggregator type: dex".
      split; reflexivity.
    - exists "id: jupiter-dex-v4 name: Jupiter Aggregator (mirror)".
      split; reflexivity. }
  rewrite (@last_descriptor_of_an_id_wins test_runtime same_id_fs tt
             CONTEXTS_DIR []
             ["jupiter-dex.yaml"; "jupiter-mirror.yaml"; "notes.txt"]
             [jupiter; jupiter_v2] "jupiter-dex-v4" eq_refl eq_refl Hall).
  reflexivity.
Defined.

(** X15 on a manager without wallets. *)
Lemma registerWallet_then_removeWallet_witness :
  @Wallet.connectedWallets test_runtime test_libraries
    (Wallet.this
       (snd (@Wallet.removeWallet test_runtime test_libraries "walletA"
               (snd (@Wallet.registerWallet test_runtime test_libraries
                       "walletA"
                       (@Wallet.localProvider test_runtime test_libraries
                          "walletA")
                       empty_wallets))))) = [].
Proof.
  exact (@registerWallet_then_removeWallet test_runtime test_libraries
           empty_wallets "walletA"
           (@Wallet.localProvider test_runtime test_libraries "walletA")
           eq_refl).
Defined.

(** X18 at the draw 7/10. *)
Lemma getAgentType_defi_or_nft_witness :
  @Agents.getAgentType test_runtime "agent1" (QArith_base.Qmake 7 10) =
    Some "defi" \/
  @Agents.getAgentType test_runtime "agent1" (QArith_base.Qmake 7 10) =
    Some "nft".
Proof.
  apply (@getAgentType_defi_or_nft test_runtime "agent1"
           (QArith_base.Qmake 7 10)).
  - unfold QArith_base.Qle. simpl. lia.
  - unfold QArith_base.Qlt. simpl. lia.
Defined.

(** X20: a second request, with another draw, gets the agent of the first. *)
Lemma getAgent_returns_the_cached_agent_witness :
  fst (@Agents.getAgent test_runtime test_libraries "agent1"
         (QArith_base.Qmake 1 10)
         (snd (@Agents.getAgent test_runtime test_libraries "agent1"
                 (QArith_base.Qmake 7 10) empty_agents))) =
  Normal (Some "Solana NFT Market Agent").
Proof.
  rewrite (@getAgent_returns_the_cached_agent test_runtime test_libraries
             "agent1" "agent1" (QArith_base.Qmake 7 10)
             (QArith_base.Qmake 1 10) empty_agents
             "Solana NFT Market Agent" eq_refl eq_refl).
  reflexivity.
Defined.

(** X21 with the constructors of the test libraries, at the draw 1/10. *)
Lemma getAgent_finds_every_id_witness :
  exists a,
    fst (@Agents.getAgent test_runtime test_libraries "agent1"
           (QArith_base.Qmake 1 10) empty_agents) = Normal (Some a).
Proof.
  apply (@getAgent_finds_every_id test_runtime test_libraries "agent1"
           (QArith_base.Qmake 1 10) empty_agents).
  - intros options. now exists "Solana DeFi Agent".
  - intros options. now exists "Solana NFT Market Agent".
  - unfold QArith_base.Qle. simpl. lia.
  - unfold QArith_base.Qlt. simpl. lia.
Defined.

(** With constructors that raise, [getAgent] answers [null], logs the
    error once and caches nothing. *)
Example getAgent_with_failing_constructor :
  let run := @Agents.getAgent test_runtime failing_libraries "agent1"
               (QArith_base.Qmake 1 10) empty_agents_failing in
  fst run = Normal None /\
  @Agents.agents test_runtime failing_libraries (Agents.this (snd run)) = [] /\
  map message (Agents.logs (snd run)) = ["Error creating agent of type defi:"].
Proof. repeat split; reflexivity. Qed.

(** The two branches of the price path. *)
Example getPrice_examples :
  fst (Binance.getPrice test_axios "BTCUSDT"
         (snd (Binance.handleTickerMessage btc_ticker empty_binance))) =
    Normal "64000.50" /\
  fst (Binance.getPrice test_axios "ETHUSDT" empty_binance) = Normal "3500.10" /\
  fst (Binance.getPrice test_axios "btcusdt"
         (snd (Binance.handleTickerMessage btc_ticker empty_binance))) =
    Throw {| errName := "Error";
             errMessage := "Failed to get price for btcusdt" |}.
Proof. repeat split; reflexivity. Qed.

(* ===================================================================== *)
(** ** The queries over the values the loader stores                      *)
(* ===================================================================== *)

Section RawFacts.
Context {RT : Runtime} {PS : Raw.Parsers}.

Lemma Raw_some_on_strings (cap : string) (items : list Raw.Value) :
  forall held,
    Raw.strings_of items = Some held ->
    Raw.Array_some
      (fun contextCap =>
         match Raw.call_toLowerCase contextCap with
         | Throw e => Throw e
         | Normal lowered => Normal (String.eqb lowered (toLowerCase cap))
         end) items =
    Normal (existsb (fun contextCap =>
                       String.eqb (toLowerCase contextCap) (toLowerCase cap))
                    held).
Proof.
  induction items as [|x rest IH]; intros held Hs; simpl in *.
  - injection Hs as <-. reflexivity.
  - destruct x; try discriminate.
    destruct (Raw.strings_of rest) as [l |]; [| discriminate].
    injection Hs as <-. simpl.
    destruct (String.eqb (toLowerCase s) (toLowerCase cap)); [reflexivity |].
    now apply IH.
Qed.

Lemma Raw_hasCapability_on_strings (v : Raw.Value) (held : list string)
  (cap : string) :
  Raw.capabilities_of v = Some held ->
  Raw.hasCapability v cap =
  Normal (existsb (fun contextCap =>
                     String.eqb (toLowerCase contextCap) (toLowerCase cap))
                  held).
Proof.
  unfold Raw.capabilities_of, Raw.hasCapability.
  destruct (Raw.get_prop v "capabilities") as [c | e]; [| discriminate].
  destruct c; try discriminate.
  intros Hs. simpl. now apply Raw_some_on_strings.
Qed.

Lemma Raw_every_on_strings (v : Raw.Value) (held : list string)
  (caps : list string) :
  Raw.capabilities_of v = Some held ->
  Raw.Array_every (Raw.hasCapability v) caps = Normal (Raw.holds_all held caps).
Proof.
  intros Hv. unfold Raw.holds_all.
  induction caps as [|cap rest IH]; simpl.
  - reflexivity.
  - rewrite (Raw_hasCapability_on_strings v held cap Hv).
    destruct (existsb _ held); [exact IH | reflexivity].
Qed.

(** With no capability asked for, the loop keeps every value, whatever it
    is. *)
Lemma Raw_collectMatches_empty_query (values : list Raw.Value) :
  forall matches,
    Raw.collectMatches values [] matches = Normal (matches ++ values).
Proof.
  induction values as [|v rest IH]; intros matches; simpl.
  - now rewrite app_nil_r.
  - rewrite IH, <- app_assoc. reflexivity.
Qed.

(** On values that all have an array of strings under [capabilities], the
    loop returns, and keeps the values that pass the test. *)
Lemma Raw_collectMatches_on_strings (caps : list string)
  (values : list Raw.Value) :
  (forall v, In v values -> exists held, Raw.capabilities_of v = Some held) ->
  forall matches,
    Raw.collectMatches values caps matches =
    Normal (matches ++
            filter (fun v => match Raw.capabilities_of v with
                             | Some held => Raw.holds_all held caps
                             | None => false
                             end) values).
Proof.
  induction values as [|v rest IH]; intros Hall matches; simpl.
  - now rewrite app_nil_r.
  - destruct (Hall v (or_introl eq_refl)) as [held Hheld].
    rewrite (Raw_every_on_strings v held caps Hheld), Hheld.
    assert (Hrest : forall w, In w rest ->
              exists h, Raw.capabilities_of w = Some h)
      by (intros w Hw; apply Hall; now right).
    destruct (Raw.holds_all held caps).
    + rewrite (IH Hrest), <- app_assoc. reflexivity.
    + apply (IH Hrest).
Qed.

Lemma Raw_holds_all_spec (v : Raw.Value) (held caps : list string) :
  Raw.capabilities_of v = Some held ->
  (Raw.holds_all held caps = true <-> Raw.has_all v caps).
Proof.
  intros Hv. unfold Raw.holds_all, Raw.has_all, same_ignoring_case.
  rewrite forallb_forall. split.
  - intros H. exists held. split; [exact Hv |].
    intros cap Hcap. specialize (H cap Hcap).
    apply existsb_exists in H. destruct H as (cc & Hin & Heq).
    exists cc. split; [exact Hin | now apply String.eqb_eq].
  - intros (held' & Hv' & H) cap Hcap.
    assert (held' = held) by congruence. subst held'.
    destruct (H cap Hcap) as (cc & Hin & Heq).
    apply existsb_exists. exists cc. split; [exact Hin | now apply String.eqb_eq].
Qed.

(** *** What the loader and a registration store *)

Lemma Raw_Map_set_values (P : Raw.Value -> Prop) (m : Raw.AnyMap)
  (k v : Raw.Value) :
  Forall P (Raw.Map_values m) -> P v ->
  Forall P (Raw.Map_values (Raw.Map_set m k v)).
Proof.
  unfold Raw.Map_values. intros Hm Hv.
  induction m as [|[k' v'] rest IH]; simpl.
  - constructor; [exact Hv | constructor].
  - simpl in Hm. inversion Hm as [|? ? Hhd Htl]; subst.
    destruct (Raw.sameValueZero k' k); simpl; constructor; auto.
Qed.

Lemma Raw_get_prop_held (v : Raw.Value) (p : string) (x : Raw.Value) :
  Raw.get_prop v p = Normal x -> Raw.is_held_value v.
Proof.
  destruct v; simpl; intros H; try discriminate; split; discriminate.
Qed.

Lemma Raw_loadFile_keeps (fs : FileSystem) (file : string) (st : Raw.State) :
  Forall Raw.is_held_value (Raw.getAllContexts (Raw.this st)) ->
  Forall Raw.is_held_value
    (Raw.getAllContexts (Raw.this (snd (Raw.loadFile fs file st)))).
Proof.
  intros Hst. unfold Raw.loadFile.
  destruct (recognized file); [| exact Hst].
  unfold eff_bind, eff_get, eff_call. simpl.
  destruct (readFileSync fs _) as [content | e]; [| exact Hst].
  destruct (Raw.parse_file file content) as [contextDef | e]; [| exact Hst].
  destruct (Raw.get_prop contextDef "id") as [key | e] eqn:Hkey; [| exact Hst].
  simpl. unfold Raw.getAllContexts in *. simpl.
  apply Raw_Map_set_values; [exact Hst |].
  exact (Raw_get_prop_held contextDef "id" key Hkey).
Qed.

Lemma Raw_loadFiles_keeps (fs : FileSystem) (files : list string) :
  forall n st,
    Forall Raw.is_held_value (Raw.getAllContexts (Raw.this st)) ->
    Forall Raw.is_held_value
      (Raw.getAllContexts (Raw.this (snd (Raw.loadFiles fs files n st)))).
Proof.
  induction files as [|file rest IH]; intros n st Hst; simpl.
  - exact Hst.
  - unfold eff_bind.
    pose proof (Raw_loadFile_keeps fs file st Hst) as Hfile.
    destruct (Raw.loadFile fs file st) as [[counted | e] st']; simpl in *.
    + now apply IH.
    + exact Hfile.
Qed.

Lemma Raw_log_keeps (l : LogLevel) (msg : string) (err : option JsError)
  (st : Raw.State) :
  Raw.this (snd (Raw.log l msg err st)) = Raw.this st.
Proof. reflexivity. Qed.

Lemma Raw_loadContexts_keeps (fs : FileSystem) (st : Raw.State) :
  Forall Raw.is_held_value (Raw.getAllContexts (Raw.this st)) ->
  Forall Raw.is_held_value
    (Raw.getAllContexts (Raw.this (snd (Raw.loadContexts fs st)))).
Proof.
  intros Hst. unfold Raw.loadContexts, eff_try, eff_bind, eff_get. simpl.
  destruct (existsSync fs (Raw.contextPath (Raw.this st))); simpl.
  - unfold eff_call. destruct (readdirSync fs _) as [files | e]; simpl.
    + pose proof (Raw_loadFiles_keeps fs files 0 st Hst) as Hloop.
      destruct (Raw.loadFiles fs files 0 st) as [[n | e] st']; simpl in *;
        exact Hloop.
    + exact Hst.
  - exact Hst.
Qed.

Lemma Raw_registerContext_keeps (d : ContextDefinition) (a : PublicKey)
  (st : Raw.State) :
  Forall Raw.is_held_value (Raw.getAllContexts (Raw.this st)) ->
  Forall Raw.is_held_value
    (Raw.getAllContexts (Raw.this (snd (Raw.registerContext d a st)))).
Proof.
  intros Hst. unfold Raw.registerContext, eff_try, eff_bind, eff_call.
  destruct (PublicKey_new NEW_CONTEXT_ID) as [k | e]; simpl.
  - unfold Raw.getAllContexts in *. simpl.
    apply Raw_Map_set_values; [exact Hst |].
    split; discriminate.
  - exact Hst.
Qed.

(** In a reachable state no held value is [null] or [undefined]: the loader
    reads [contextDef.id] before it stores. *)
Lemma Raw_reachable_held (st : Raw.State) :
  Raw.reachable st ->
  Forall Raw.is_held_value (Raw.getAllContexts (Raw.this st)).
Proof.
  induction 1 as [fs conn path logs0 | st d a Hreach IH].
  - unfold Raw.new_ContextManager. apply Raw_loadContexts_keeps.
    constructor.
  - now apply Raw_registerContext_keeps.
Qed.

(** On held values, filtering by type returns. *)
Lemma Raw_getContextsByType_held (mgr : Raw.ContextManager) (type0 : string) :
  Forall Raw.is_held_value (Raw.getAllContexts mgr) ->
  Raw.getContextsByType mgr type0 =
  Normal (filter (Raw.has_type type0) (Raw.getAllContexts mgr)).
Proof.
  unfold Raw.getContextsByType, Raw.getAllContexts.
  induction (Raw.Map_values (Raw.contexts mgr)) as [|v rest IH];
    intros Hheld; simpl.
  - reflexivity.
  - inversion Hheld as [|? ? [Hnull Hundef] Hrest]; subst.
    rewrite (IH Hrest).
    unfold Raw.has_type, Raw.type_of.
    destruct v; try congruence; simpl; try reflexivity.
    destruct (Raw.own_property fields "type"); reflexivity.
Qed.

Lemma ContextType_value_inj (a b : ContextType) :
  ContextType_value a = ContextType_value b -> a = b.
Proof.
  intros H. apply ContextType_strict_eq_spec.
  unfold ContextType_strict_eq. rewrite H. apply String.eqb_refl.
Qed.

Lemma Raw_type_member_spec (v : Raw.Value) (t : ContextType) :
  Raw.type_member v = Some t <-> Raw.has_type (ContextType_value t) v = true.
Proof.
  unfold Raw.type_member, Raw.has_type.
  destruct (Raw.type_of v) as [s |]; [| split; discriminate].
  split.
  - intros Hfind. apply find_some in Hfind. destruct Hfind as [_ Heq].
    apply String.eqb_eq in Heq. subst s. apply String.eqb_refl.
  - intros Heq. apply String.eqb_eq in Heq. subst s.
    destruct (find (fun t' => String.eqb (ContextType_value t')
                                         (ContextType_value t))
                   ContextType_all) as [t' |] eqn:Hfind.
    + apply find_some in Hfind. destruct Hfind as [_ Heq].
      apply String.eqb_eq in Heq. f_equal. now apply ContextType_value_inj.
    + pose proof (find_none _ _ Hfind t (ContextType_all_complete t)) as Hno.
      simpl in Hno. now rewrite String.eqb_refl in Hno.
Qed.

(** The values of recognized type, selected by member, are the values
    selected by the string of the member. *)
Lemma Raw_of_type_recognized (t : ContextType) (l : list Raw.Value) :
  of_type (fun v => match Raw.type_member v with Some t' => t' | None => DEX end)
          (filter Raw.has_recognized_type l) t =
  filter (Raw.has_type (ContextType_value t)) l.
Proof.
  unfold of_type. induction l as [|v rest IH]; simpl; [reflexivity |].
  unfold Raw.has_recognized_type at 1.
  destruct (Raw.type_member v) as [t' |] eqn:Hm; simpl.
  - rewrite Hm, IH.
    destruct (Raw.has_type (ContextType_value t) v) eqn:Hty.
    + apply Raw_type_member_spec in Hty.
      assert (t' = t) by congruence. subst t'.
      unfold ContextType_strict_eq. now rewrite String.eqb_refl.
    + destruct (ContextType_strict_eq t' t) eqn:E; [| reflexivity].
      apply ContextType_strict_eq_spec in E. subst t'.
      apply Raw_type_member_spec in Hm. congruence.
  - rewrite IH.
    destruct (Raw.has_type (ContextType_value t) v) eqn:Hty; [| reflexivity].
    apply Raw_type_member_spec in Hty. congruence.
Qed.

Lemma filter_all_true (A : Type) (p : A -> bool) (l : list A) :
  (forall x, In x l -> p x = true) -> filter p l = l.
Proof.
  induction l as [|x l IH]; simpl; intros H; [reflexivity |].
  rewrite (H x (or_introl eq_refl)), IH; [reflexivity |].
  intros y Hy. apply H. now right.
Qed.

End RawFacts.

Section RawClaims.
Context {RT : Runtime} {PS : Raw.Parsers}.

(** C1, as the code has it. On values as the loader stores them,
    [findContextsByCapabilities(caps)] with no capability asked for returns
    every held value, whatever the registry holds. When every held value has
    an array of strings under [capabilities], the call returns, in the order
    of [getAllContexts()], exactly the values whose array contains every
    string of [caps] up to case (it is [getAllContexts()] filtered by any
    test that decides that property); and a value with the capability
    Token_Swaps is returned for the query token_swaps (for this last part
    [toLowerCase] is taken to act on ASCII text as the language defines
    it). *)
Theorem findContextsByCapabilities_on_string_capabilities
  (mgr : Raw.ContextManager) (caps : list string) :
  (forall s, is_ascii s = true -> toLowerCase s = ascii_toLowerCase s) ->
  Raw.findContextsByCapabilities mgr [] = Normal (Raw.getAllContexts mgr) /\
  ((forall v, In v (Raw.getAllContexts mgr) ->
      exists held, Raw.capabilities_of v = Some held) ->
   (forall p : Raw.Value -> bool,
      (forall v, p v = true <-> Raw.has_all v caps) ->
      Raw.findContextsByCapabilities mgr caps =
      Normal (filter p (Raw.getAllContexts mgr))) /\
   (exists result,
      Raw.findContextsByCapabilities mgr caps = Normal result /\
      forall v, In v result <->
                In v (Raw.getAllContexts mgr) /\ Raw.has_all v caps) /\
   (forall v held,
      In v (Raw.getAllContexts mgr) ->
      Raw.capabilities_of v = Some held ->
      In "Token_Swaps" held ->
      exists result,
        Raw.findContextsByCapabilities mgr ["token_swaps"] = Normal result /\
        In v result)).
Proof.
  intros Hascii. split.
  - unfold Raw.findContextsByCapabilities.
    now rewrite Raw_collectMatches_empty_query.
  - intros Hstrings.
    assert (Hfilter : forall caps0,
      Raw.findContextsByCapabilities mgr caps0 =
      Normal (filter (fun v => match Raw.capabilities_of v with
                               | Some held => Raw.holds_all held caps0
                               | None => false
                               end) (Raw.getAllContexts mgr))).
    { intros caps0. unfold Raw.findContextsByCapabilities.
      now rewrite (Raw_collectMatches_on_strings caps0 _ Hstrings). }
    assert (Hspec : forall caps0 v, In v (Raw.getAllContexts mgr) ->
      (match Raw.capabilities_of v with
       | Some held => Raw.holds_all held caps0
       | None => false
       end = true <-> Raw.has_all v caps0)).
    { intros caps0 v Hin. destruct (Hstrings v Hin) as [held Hheld].
      rewrite Hheld. now apply Raw_holds_all_spec. }
    split; [| split].
    + intros p Hp. rewrite Hfilter. f_equal.
      apply filter_ext_in. intros v Hin.
      apply eq_iff_eq_true. now rewrite (Hspec caps v Hin), Hp.
    + eexists. split; [apply Hfilter |].
      intros v. rewrite filter_In. split.
      * intros [Hin Hok]. split; [exact Hin | now apply (Hspec caps v Hin)].
      * intros [Hin Hok]. split; [exact Hin | now apply (Hspec caps v Hin)].
    + intros v held Hin Hheld Hcap.
      eexists. split; [apply Hfilter |].
      apply filter_In. split; [exact Hin |].
      apply (Hspec ["token_swaps"] v Hin).
      exists held. split; [exact Hheld |].
      intros cap [<- | []]. exists "Token_Swaps". split; [exact Hcap |].
      unfold same_ignoring_case.
      rewrite (Hascii "Token_Swaps" eq_refl), (Hascii "token_swaps" eq_refl).
      reflexivity.
Qed.

(** C5, as the code has it. In every reachable state, on values as the
    loader stores them, [getContextsByType(t)] returns for every string [t]
    and is [getAllContexts()] filtered, in order, by "the type is [t]". The
    results for the seven members of the enum, put one after the other, are
    a rearrangement of the held values whose type is a member of the enum
    (none of these left out, none repeated); a held value appears in the
    result of a member exactly when that member is its type, so a value
    whose type is no member appears in none; and when every held value has a
    recognized type the seven results are a rearrangement of
    [getAllContexts()]. *)
Theorem getContextsByType_partitions_recognized_types (st : Raw.State) :
  Raw.reachable st ->
  (forall type0 : string,
     Raw.getContextsByType (Raw.this st) type0 =
     Normal (filter (Raw.has_type type0) (Raw.getAllContexts (Raw.this st)))) /\
  Permutation
    (flat_map (fun t => filter (Raw.has_type (ContextType_value t))
                               (Raw.getAllContexts (Raw.this st)))
              ContextType_all)
    (filter Raw.has_recognized_type (Raw.getAllContexts (Raw.this st))) /\
  (forall v, In v (Raw.getAllContexts (Raw.this st)) ->
     forall t : ContextType,
       In v (filter (Raw.has_type (ContextType_value t))
                    (Raw.getAllContexts (Raw.this st))) <->
       Raw.type_member v = Some t) /\
  ((forall v, In v (Raw.getAllContexts (Raw.this st)) ->
      Raw.has_recognized_type v = true) ->
   Permutation
     (flat_map (fun t => filter (Raw.has_type (ContextType_value t))
                                (Raw.getAllContexts (Raw.this st)))
               ContextType_all)
     (Raw.getAllContexts (Raw.this st))).
Proof.
  intros Hreach. pose proof (Raw_reachable_held st Hreach) as Hheld.
  set (all := Raw.getAllContexts (Raw.this st)) in *.
  assert (Hperm : Permutation
    (flat_map (fun t => filter (Raw.has_type (ContextType_value t)) all)
              ContextType_all)
    (filter Raw.has_recognized_type all)).
  { rewrite (flat_map_ext _
      (of_type (fun v => match Raw.type_member v with
                         | Some t' => t'
                         | None => DEX
                         end)
               (filter Raw.has_recognized_type all))).
    - apply of_type_partition.
    - intros t. symmetry. apply Raw_of_type_recognized. }
  split; [| split; [| split]].
  - intros type0. now apply Raw_getContextsByType_held.
  - exact Hperm.
  - intros v Hin t. rewrite filter_In, Raw_type_member_spec. tauto.
  - intros Hall. rewrite (filter_all_true _ _ _ Hall) in Hperm. exact Hperm.
Qed.

(** X23: in every reachable state the route [GET /contexts/type/:type]
    rejects no type string: [getContextsByType] returns for every string, so
    the reply is 200 with the held values whose type is that string whenever
    [res.json] returns (the empty list when no held value has that type, be
    it a member of the enum or not), and 400 only when [res.json] raises. *)
Theorem get_contexts_by_type_rejects_no_type
  (res_json : list Raw.Value -> Completion unit)
  (st : Raw.State) (type0 : string) :
  Raw.reachable st ->
  (Raw.get_contexts_by_type res_json (Raw.this st) type0 =
     {| Raw.status := 200;
        Raw.body := Raw.JsonValues
          (filter (Raw.has_type type0) (Raw.getAllContexts (Raw.this st))) |} <->
   exists u,
     res_json (filter (Raw.has_type type0) (Raw.getAllContexts (Raw.this st))) =
     Normal u) /\
  (Raw.get_contexts_by_type res_json (Raw.this st) type0 =
     {| Raw.status := 400;
        Raw.body := Raw.JsonError "Invalid context type" |} <->
   exists e,
     res_json (filter (Raw.has_type type0) (Raw.getAllContexts (Raw.this st))) =
     Throw e) /\
  ((forall v, In v (Raw.getAllContexts (Raw.this st)) ->
      Raw.type_of v <> Some type0) ->
   filter (Raw.has_type type0) (Raw.getAllContexts (Raw.this st)) = []).
Proof.
  intros Hreach. pose proof (Raw_reachable_held st Hreach) as Hheld.
  unfold Raw.get_contexts_by_type.
  rewrite (Raw_getContextsByType_held (Raw.this st) type0 Hheld).
  split; [| split].
  - destruct (res_json _) as [u | e]; split.
    + intros _. now exists u.
    + reflexivity.
    + discriminate.
    + intros [u Hu]. discriminate.
  - destruct (res_json _) as [u | e]; split.
    + discriminate.
    + intros [e He]. discriminate.
    + intros _. now exists e.
    + reflexivity.
  - intros Hnone.
    induction (Raw.getAllContexts (Raw.this st)) as [|v rest IH]; simpl;
      [reflexivity |].
    assert (Hv : Raw.has_type type0 v = false).
    { unfold Raw.has_type.
      pose proof (Hnone v (or_introl eq_refl)) as Hne.
      destruct (Raw.type_of v) as [s |]; [| reflexivity].
      destruct (String.eqb s type0) eqn:E; [| reflexivity].
      apply String.eqb_eq in E. congruence. }
    rewrite Hv. apply IH.
    + inversion Hheld; assumption.
    + intros w Hw. apply Hnone. now right.
Qed.

End RawClaims.

(* ===================================================================== *)
(** ** The queries on descriptors that are not of the interface           *)
(* ===================================================================== *)

(** C1 as stated does not hold: the registry built from a directory with a
    descriptor that has no [capabilities] array (listing jupiter-dex.yaml,
    orca.json) raises on the query token_swaps, and returns no record, not
    even the one of jupiter-dex.yaml that has the capability. *)
Lemma findContextsByCapabilities_raises_without_capabilities :
  ~ (forall (RT : Runtime) (PS : Raw.Parsers) (fs : FileSystem)
       (conn : Connection) (path : string) (logs0 : list LogRecord)
       (caps : list string),
       exists result,
         Raw.findContextsByCapabilities
           (Raw.this (snd (Raw.new_ContextManager fs conn path logs0))) caps =
         Normal result /\
         forall v,
           In v result <->
           In v (Raw.getAllContexts
                   (Raw.this (snd (Raw.new_ContextManager fs conn path logs0)))) /\
           Raw.has_all v caps).
Proof.
  intros Hclaim.
  destruct (Hclaim test_runtime test_parsers nocaps_fs
              (tt : @Connection test_runtime) CONTEXTS_DIR []
              ["token_swaps"]) as (result & Hreturns & _).
  vm_compute in Hreturns. discriminate Hreturns.
Qed.

(** C5 as stated does not hold: the registry built from a directory with a
    descriptor of type lending (listing jupiter-dex.yaml, aave.yaml) lists
    that record, and no result of [getContextsByType] for a member of the
    enum holds it. *)
Lemma unrecognized_type_is_in_no_result :
  ~ (forall (RT : Runtime) (PS : Raw.Parsers) (fs : FileSystem)
       (conn : Connection) (path : string) (logs0 : list LogRecord)
       (v : Raw.Value),
       In v (Raw.getAllContexts
               (Raw.this (snd (Raw.new_ContextManager fs conn path logs0)))) ->
       exists t result,
         In t ContextType_all /\
         Raw.getContextsByType
           (Raw.this (snd (Raw.new_ContextManager fs conn path logs0)))
           (ContextType_value t) = Normal result /\
         In v result).
Proof.
  intros Hclaim.
  destruct (Hclaim test_runtime test_parsers lending_fs
              (tt : @Connection test_runtime) CONTEXTS_DIR []
              lending_record) as (t & result & _ & Hresult & Hin).
  - right. left. reflexivity.
  - destruct t; vm_compute in Hresult; injection Hresult as <-;
      simpl in Hin; intuition discriminate.
Qed.

(** The two registries above, as they are. *)
Example registry_with_descriptor_without_capabilities :
  @Raw.getAllContexts test_runtime test_parsers (raw_manager nocaps_fs) =
    [Raw.to_raw jupiter; nocaps_record] /\
  @Raw.findContextsByCapabilities test_runtime test_parsers
    (raw_manager nocaps_fs) [] =
    Normal [Raw.to_raw jupiter; nocaps_record] /\
  @Raw.findContextsByCapabilities test_runtime test_parsers
    (raw_manager nocaps_fs) ["token_swaps"] =
    Throw (@Raw.TypeError
             "Cannot read properties of undefined (reading 'some')").
Proof. repeat split; reflexivity. Qed.

Example registry_with_descriptor_of_type_lending :
  @Raw.getAllContexts test_runtime test_parsers (raw_manager lending_fs) =
    [Raw.to_raw jupiter; lending_record] /\
  @Raw.getContextsByType test_runtime test_parsers (raw_manager lending_fs)
    "dex" = Normal [Raw.to_raw jupiter] /\
  @Raw.getContextsByType test_runtime test_parsers (raw_manager lending_fs)
    "lending" = Normal [lending_record] /\
  map (fun t => @Raw.getContextsByType test_runtime test_parsers
                  (raw_manager lending_fs) (ContextType_value t))
      [NFT_MARKETPLACE; ORACLE; GOVERNANCE; SOCIAL; IDENTITY; STORAGE] =
    [Normal []; Normal []; Normal []; Normal []; Normal []; Normal []].
Proof. repeat split; reflexivity. Qed.

(** C1, as the code has it, on the registry that holds a record with the
    capability Token_Swaps. *)
Lemma findContextsByCapabilities_on_string_capabilities_witness :
  (forall s, is_ascii s = true ->
     @toLowerCase test_runtime s = ascii_toLowerCase s) /\
  (forall v,
     In v (@Raw.getAllContexts test_runtime test_parsers
             (raw_manager same_id_fs)) ->
     exists held, @Raw.capabilities_of test_parsers v = Some held) /\
  exists result,
    @Raw.findContextsByCapabilities test_runtime test_parsers
      (raw_manager same_id_fs) ["token_swaps"] = Normal result /\
    In (Raw.to_raw jupiter_v2) result.
Proof.
  assert (Hstrings : forall v,
            In v (@Raw.getAllContexts test_runtime test_parsers
                    (raw_manager same_id_fs)) ->
            exists held, @Raw.capabilities_of test_parsers v = Some held).
  { intros v [<- | []]. exists ["Token_Swaps"]. reflexivity. }
  split; [intros s _; reflexivity | split; [exact Hstrings |]].
  destruct (@findContextsByCapabilities_on_string_capabilities test_runtime
              test_parsers (raw_manager same_id_fs) ["token_swaps"]
              (fun s _ => eq_refl)) as [_ Hconforming].
  destruct (Hconforming Hstrings) as (_ & _ & Hexample).
  apply (Hexample (Raw.to_raw jupiter_v2) ["Token_Swaps"]).
  - left. reflexivity.
  - reflexivity.
  - left. reflexivity.
Defined.

(** C5, as the code has it, on the registry with a record of type
    lending. *)
Lemma getContextsByType_partitions_recognized_types_witness :
  @Raw.reachable test_runtime test_parsers (raw_state lending_fs) /\
  Permutation
    (flat_map (fun t => filter (@Raw.has_type test_parsers (ContextType_value t))
                               [Raw.to_raw jupiter; lending_record])
              ContextType_all)
    [Raw.to_raw jupiter].
Proof.
  assert (Hreach : @Raw.reachable test_runtime test_parsers (raw_state lending_fs)).
  { unfold raw_state. apply (@Raw.reach_new test_runtime test_parsers). }
  split; [exact Hreach |].
  destruct (@getContextsByType_partitions_recognized_types test_runtime
              test_parsers (raw_state lending_fs) Hreach)
    as (_ & Hperm & _).
  exact Hperm.
Defined.

(** X23 on the registry with a record of type lending. *)
Lemma get_contexts_by_type_rejects_no_type_witness :
  @Raw.get_contexts_by_type test_runtime test_parsers res_json_ok
    (raw_manager lending_fs) "lending" =
  @Raw.Build_Response test_parsers 200
    (@Raw.JsonValues test_parsers [lending_record]).
Proof.
  assert (Hreach : @Raw.reachable test_runtime test_parsers (raw_state lending_fs)).
  { unfold raw_state. apply (@Raw.reach_new test_runtime test_parsers). }
  destruct (@get_contexts_by_type_rejects_no_type test_runtime test_parsers
              res_json_ok (raw_state lending_fs) "lending" Hreach)
    as ([_ Hok] & _ & _).
  apply Hok. now exists tt.
Defined.

(* ===================================================================== *)
(** ** Records of the interface among the values                          *)
(* ===================================================================== *)

Section InterfaceRecords.
Context {RT : Runtime} {PS : Raw.Parsers}.

Lemma strings_of_strings (l : list string) :
  Raw.strings_of (map Raw.JString l) = Some l.
Proof.
  induction l as [|x l IH]; simpl; [reflexivity | now rewrite IH].
Qed.

Lemma capabilities_of_record (d : ContextDefinition) :
  Raw.capabilities_of (Raw.to_raw d) = Some (capabilities d).
Proof. unfold Raw.capabilities_of. simpl. apply strings_of_strings. Qed.

Lemma type_of_record (d : ContextDefinition) :
  Raw.type_of (Raw.to_raw d) = Some (ContextType_value (type d)).
Proof. reflexivity. Qed.

Lemma filter_of_map (A B : Type) (f : A -> B) (p : B -> bool) (l : list A) :
  filter p (map f l) = map f (filter (fun x => p (f x)) l).
Proof.
  induction l as [|x l IH]; simpl; [reflexivity |].
  destruct (p (f x)); simpl; now rewrite IH.
Qed.

Lemma values_of_manager (mgr : ContextManager) :
  Raw.getAllContexts (manager_of_values mgr) =
  map Raw.to_raw (getAllContexts mgr).
Proof.
  unfold Raw.getAllContexts, Raw.Map_values, getAllContexts, Map_values.
  simpl. now rewrite !map_map.
Qed.

(** On a manager that holds records of the interface, the queries over
    values return the values of what the queries over records return. *)
Lemma queries_agree_on_interface_records (mgr : ContextManager) :
  (forall caps,
     Raw.findContextsByCapabilities (manager_of_values mgr) caps =
     Normal (map Raw.to_raw (findContextsByCapabilities mgr caps))) /\
  (forall t,
     Raw.getContextsByType (manager_of_values mgr) (ContextType_value t) =
     Normal (map Raw.to_raw (getContextsByType mgr t))).
Proof.
  split.
  - intros caps.
    unfold Raw.findContextsByCapabilities, findContextsByCapabilities.
    fold (Raw.getAllContexts (manager_of_values mgr)).
    rewrite values_of_manager, collectMatches_filter. simpl.
    rewrite Raw_collectMatches_on_strings.
    + simpl. f_equal. rewrite filter_of_map. f_equal.
      apply filter_ext. intros d. now rewrite capabilities_of_record.
    + intros v Hin. apply in_map_iff in Hin. destruct Hin as (d & <- & _).
      exists (capabilities d). apply capabilities_of_record.
  - intros t. rewrite Raw_getContextsByType_held.
    + rewrite values_of_manager, filter_of_map. reflexivity.
    + rewrite values_of_manager. apply Forall_forall.
      intros v Hin. apply in_map_iff in Hin. destruct Hin as (d & <- & _).
      split; discriminate.
Qed.

End InterfaceRecords.
